(** * Long-running operation handle of the Cloud Functions client

    A shallow embedding of [Operation] (the event-emitting handle with its
    listener-driven poller, [startPolling_], [listenForEvents_] and
    [promise]) and of the two [Functions] helpers [operation] and
    [_formatName], together with the properties the design document states
    about them.

    JavaScript values are an inductive type, objects are finite maps from
    property names to values, the Node event emitter is a registry from
    event names to listener lists, and the asynchronous runtime (status
    fetches in flight, timers set by [setTimeout]) is explicit state that a
    scheduler action consumes. *)

From stdpp Require Import base strings gmap list.
From Stdlib Require Import ZArith Lia Ascii.

Set Warnings "-register-all".
Open Scope Z_scope.

(** ** JavaScript values *)

(** Function objects are compared by identity.  The handle owns two closures
    (installed by [listenForEvents_]); [promise] creates two more per
    promise: the promise's [reject] function and the closure
    [function(metadata) { resolve([metadata]); }]. *)
Inductive Listener : Type :=
  | User (id : nat)
  | NewListenerHook
  | RemoveListenerHook
  | PromiseReject (p : nat)
  | PromiseResolve (p : nat).

#[global] Instance Listener_eq_dec : EqDecision Listener.
Proof. solve_decision. Defined.

Inductive Value : Type :=
  | VUndefined
  | VNull
  | VBool (b : bool)
  | VNum (n : Z)
  | VStr (s : string)
  | VFun (f : Listener)
  | VArr (items : list Value)
  | VObj (props : gmap string Value).

(** Truthiness, as used by [!x], [x || y] and [if (x)]. *)
Definition truthy (v : Value) : bool :=
  match v with
  | VUndefined | VNull => false
  | VBool b => b
  | VNum n => negb (n =? 0)
  | VStr s => negb (String.eqb s "")
  | VFun _ | VArr _ | VObj _ => true
  end.

(** [a || b] *)
Definition js_or (a b : Value) : Value := if truthy a then a else b.

(** [o.k] for an object [o]: an absent property reads as [undefined]. *)
Definition prop (o : gmap string Value) (k : string) : Value :=
  default VUndefined (o !! k).

(** [v.k] for a value that may or may not be an object: primitives have no
    own properties of the names used here. *)
Definition member (v : Value) (k : string) : Value :=
  match v with
  | VObj o => prop o k
  | _ => VUndefined
  end.

(** ** The handle and the runtime around it *)

(** [Operation]: the fields set by the constructor, and the listener
    registry of the [EventEmitter] it inherits from.  The counter is a
    JavaScript number that only ever holds small integers.  The [parent]
    client is the runtime below: its [api.Operations.getOperation] is the
    [Fetch] effect and its [Promise] constructor makes the promise cells. *)
Record Operation : Type := mkOperation {
  name : Value;
  completeListeners : Z;
  hasActiveListeners : bool;
  _events : gmap string (list Listener)
}.

Inductive PromiseState : Type :=
  | Pending
  | Resolved (v : Value)
  | Rejected (v : Value).

(** What the handle does to the outside world, most recent first.
    [Uncaught er] is the throw of [emit] for an ['error'] event with
    argument [er] that nobody listens to; what is thrown for [er] is given
    by [unhandled] below. *)
Inductive Effect : Type :=
  | Fetch (opname : Value)
  | SetTimeout (delay : Z)
  | Emit (event : string) (args : list Value) (called : list Listener)
  | Uncaught (v : Value).

(** One handle in its runtime: the number of [getOperation] calls whose
    callback has not run yet, the delays of the timers that have not fired
    yet (every timer of this file runs [startPolling_]), the promises made
    by [promise], and the effect log. *)
Record World : Type := mkWorld {
  op : Operation;
  inflight : nat;
  timers : list Z;
  promises : list PromiseState;
  effects : list Effect
}.

Definition with_op (f : Operation -> Operation) (w : World) : World :=
  mkWorld (f (op w)) (inflight w) (timers w) (promises w) (effects w).

Definition set_completeListeners (n : Z) (o : Operation) : Operation :=
  mkOperation (name o) n (hasActiveListeners o) (_events o).

Definition set_hasActiveListeners (b : bool) (o : Operation) : Operation :=
  mkOperation (name o) (completeListeners o) b (_events o).

Definition set_events (e : gmap string (list Listener)) (o : Operation) : Operation :=
  mkOperation (name o) (completeListeners o) (hasActiveListeners o) e.

Definition record (e : Effect) (w : World) : World :=
  mkWorld (op w) (inflight w) (timers w) (promises w) (e :: effects w).

(** [setTimeout(self.startPolling_.bind(self), delay)] *)
Definition setTimeout (delay : Z) (w : World) : World :=
  record (SetTimeout delay)
    (mkWorld (op w) (inflight w) (timers w ++ [delay]) (promises w) (effects w)).

(** A promise settles once; later calls of [resolve] or [reject] are ignored. *)
Definition settle (p : nat) (st : PromiseState) (w : World) : World :=
  match promises w !! p with
  | Some Pending =>
      mkWorld (op w) (inflight w) (timers w) (<[p := st]> (promises w)) (effects w)
  | _ => w
  end.

(** [Operation.prototype.get], called with the poller's callback: one
    [getOperation] request keyed by the handle's name. *)
Definition get (w : World) : World :=
  record (Fetch (name (op w)))
    (mkWorld (op w) (S (inflight w)) (timers w) (promises w) (effects w)).

(** [Operation.prototype.startPolling_], up to the point where the request
    is sent; its callback is [poll_response] below. *)
Definition startPolling_ (w : World) : World :=
  if negb (hasActiveListeners (op w)) then w else get w.

(** [event === 'complete'] *)
Definition is_complete (event : Value) : bool :=
  match event with
  | VStr s => String.eqb s "complete"
  | _ => false
  end.

(** The two closures registered by [listenForEvents_]. *)
Definition newListener_hook (event : Value) (w : World) : World :=
  if is_complete event then
    let w1 := with_op (fun o => set_completeListeners (completeListeners o + 1) o) w in
    if negb (hasActiveListeners (op w1))
    then startPolling_ (with_op (set_hasActiveListeners true) w1)
    else w1
  else w.

Definition removeListener_hook (event : Value) (w : World) : World :=
  if is_complete event then
    let w1 := with_op (fun o => set_completeListeners (completeListeners o - 1) o) w in
    if completeListeners (op w1) =? 0
    then with_op (set_hasActiveListeners false) w1
    else w1
  else w.

(** ** The event emitter *)

Definition listeners (w : World) (ev : string) : list Listener :=
  default [] (_events (op w) !! ev).

(** Calling a listener.  What a user's listener does to the handle is a
    later action of the trace. *)
Definition call (l : Listener) (args : list Value) (w : World) : World :=
  match l with
  | User _ => w
  | NewListenerHook => newListener_hook (hd VUndefined args) w
  | RemoveListenerHook => removeListener_hook (hd VUndefined args) w
  | PromiseReject p => settle p (Rejected (hd VUndefined args)) w
  | PromiseResolve p => settle p (Resolved (VArr [hd VUndefined args])) w
  end.

(** [emit]: the listeners registered at the time of the call run in
    registration order; an ['error'] event nobody listens to makes [emit]
    throw, which the log records with the argument of the event. *)
Definition emit (ev : string) (args : list Value) (w : World) : World :=
  let ls := listeners w ev in
  let w1 := foldl (fun acc l => call l args acc) (record (Emit ev args ls) w) ls in
  match ls with
  | [] => if String.eqb ev "error" then record (Uncaught (hd VUndefined args)) w1 else w1
  | _ => w1
  end.

(** Removing the most recently added occurrence of a listener. *)
Fixpoint remove_last (l : Listener) (ls : list Listener) : option (list Listener) :=
  match ls with
  | [] => None
  | x :: xs =>
      match remove_last l xs with
      | Some xs' => Some (x :: xs')
      | None => if decide (x = l) then Some xs else None
      end
  end.

(** [on(ev, l)]: ['newListener'] is emitted before the listener is added. *)
Definition on (ev : string) (l : Listener) (w : World) : World :=
  let w1 := match listeners w "newListener" with
            | [] => w
            | _ => emit "newListener" [VStr ev; VFun l] w
            end in
  with_op (fun o => set_events (<[ev := listeners w1 ev ++ [l]]> (_events o)) o) w1.

(** [removeListener(ev, l)]: ['removeListener'] is emitted after the listener
    is removed, and only when it was registered. *)
Definition removeListener (ev : string) (l : Listener) (w : World) : World :=
  match remove_last l (listeners w ev) with
  | None => w
  | Some ls' =>
      let w1 := with_op (fun o =>
                  set_events (match ls' with
                              | [] => delete ev (_events o)
                              | _ => <[ev := ls']> (_events o)
                              end) o) w in
      match listeners w1 "removeListener" with
      | [] => w1
      | _ => emit "removeListener" [VStr ev; VFun l] w1
      end
  end.

(** [Operation.prototype.listenForEvents_] and the constructor. *)
Definition listenForEvents_ (w : World) : World :=
  on "removeListener" RemoveListenerHook (on "newListener" NewListenerHook w).

Definition new_Operation (nm : Value) : World :=
  listenForEvents_
    (mkWorld (mkOperation nm 0 false ∅) 0%nat [] [] []).

(** [Operation.prototype.promise]: the executor runs at once and subscribes
    [reject] to ['error'] and the resolving closure to ['complete']. *)
Definition promise (w : World) : nat * World :=
  let p := length (promises w) in
  let w0 := mkWorld (op w) (inflight w) (timers w) (promises w ++ [Pending]) (effects w) in
  (p, on "complete" (PromiseResolve p) (on "error" (PromiseReject p) w0)).

(** ** Observations on a handle *)

Definition is_fetch (e : Effect) : bool :=
  match e with Fetch _ => true | _ => false end.

Fixpoint count_fetches (es : list Effect) : nat :=
  match es with
  | [] => O
  | e :: es' => if is_fetch e then S (count_fetches es') else count_fetches es'
  end.

(** Number of status requests sent so far. *)
Definition fetches (w : World) : nat := count_fetches (effects w).

(** Poll cycles that are still to run: requests in flight and timers set. *)
Definition pending (w : World) : nat := (inflight w + length (timers w))%nat.

(** The arguments of every emission of [ev] so far, most recent first. *)
Definition emitted (ev : string) (w : World) : list (list Value) :=
  omap (fun e => match e with
                 | Emit ev' args _ => if String.eqb ev' ev then Some args else None
                 | _ => None
                 end) (effects w).

Definition is_terminal_emit (e : Effect) : bool :=
  match e with
  | Emit ev _ _ => String.eqb ev "complete" || String.eqb ev "error"
  | _ => false
  end.

(** Has ['complete'] or ['error'] been emitted? *)
Definition terminal (w : World) : bool := existsb is_terminal_emit (effects w).

(** ** The poll cycle and the scheduler *)

(** What can happen to a handle: a caller subscribes or unsubscribes one of
    its own functions, a caller asks for a promise, the transport calls back
    one request in flight with [(err, resp)], or one timer fires. *)
Inductive Action : Type :=
  | Subscribe (ev : string) (id : nat)
  | Unsubscribe (ev : string) (id : nat)
  | MakePromise
  | Respond (err : Value) (resp : gmap string Value)
  | Tick.

Definition is_complete_subscription (a : Action) : bool :=
  match a with
  | Subscribe ev _ => String.eqb ev "complete"
  | MakePromise => true
  | _ => false
  end.

Definition is_subscription (a : Action) : bool :=
  match a with
  | Unsubscribe _ _ => false
  | _ => true
  end.

Definition is_response (a : Action) : bool :=
  match a with Respond _ _ => true | _ => false end.

Section Poller.

(** [common.GrpcService.decorateStatus_], which lives in another package. *)
Variable decorateStatus_ : Value -> Value.

(** The callback [startPolling_] hands to [get]. *)
Definition poll_response (err : Value) (resp : gmap string Value) (w : World) : World :=
  if truthy err || truthy (prop resp "error") then
    emit "error" [js_or err (decorateStatus_ (prop resp "result"))] w
  else if negb (truthy (prop resp "done")) then
    setTimeout 500 w
  else
    emit "complete" [VObj resp] w.

(** One action; [None] when the runtime cannot take it (no request in
    flight to answer, no timer to fire). *)
Definition step (a : Action) (w : World) : option World :=
  match a with
  | Subscribe ev id => Some (on ev (User id) w)
  | Unsubscribe ev id => Some (removeListener ev (User id) w)
  | MakePromise => Some (snd (promise w))
  | Respond err resp =>
      match inflight w with
      | O => None
      | S n =>
          Some (poll_response err resp
                  (mkWorld (op w) n (timers w) (promises w) (effects w)))
      end
  | Tick =>
      match timers w with
      | [] => None
      | _ :: ts =>
          Some (startPolling_
                  (mkWorld (op w) (inflight w) ts (promises w) (effects w)))
      end
  end.

Fixpoint run (t : list Action) (w : World) : option World :=
  match t with
  | [] => Some w
  | a :: t' =>
      match step a w with
      | Some w' => run t' w'
      | None => None
      end
  end.

(** [guarded allowed t w]: every action of [t] is allowed in the state it is
    taken in. *)
Fixpoint guarded (allowed : Action -> World -> bool) (t : list Action) (w : World)
    : bool :=
  match t with
  | [] => true
  | a :: t' =>
      allowed a w &&
      match step a w with
      | Some w' => guarded allowed t' w'
      | None => true
      end
  end.

(** No ['complete'] subscriber registers while the handle has none. *)
Definition stays_subscribed : list Action -> World -> bool :=
  guarded (fun a w => negb (is_complete_subscription a) || hasActiveListeners (op w)).

(** No ['complete'] subscriber registers while the handle has none and a
    poll cycle of an earlier subscription is still pending. *)
Definition orderly : list Action -> World -> bool :=
  guarded (fun a w => negb (is_complete_subscription a)
                      || hasActiveListeners (op w) || (pending w =? 0)%nat).

End Poller.

(** ** Shapes of runs *)

Definition no_complete_subscription (t : list Action) : bool :=
  forallb (fun a => negb (is_complete_subscription a)) t.

Definition only_subscriptions (t : list Action) : bool := forallb is_subscription t.

Fixpoint count_responses (t : list Action) : nat :=
  match t with
  | [] => O
  | a :: t' => if is_response a then S (count_responses t') else count_responses t'
  end.

(** Every answer of the run is free of errors and not done. *)
Definition no_terminal_answer (t : list Action) : bool :=
  forallb (fun a => match a with
                    | Respond err resp =>
                        negb (truthy err || truthy (prop resp "error")
                              || truthy (prop resp "done"))
                    | _ => true
                    end) t.

(** The action is a subscription to, or an unsubscription from, ['complete']. *)
Definition is_complete_listener_action (a : Action) : bool :=
  match a with
  | Subscribe ev _ | Unsubscribe ev _ => String.eqb ev "complete"
  | _ => false
  end.

(** A decoration hook to run examples with. *)
Definition sample_decorate (v : Value) : Value := VObj {[ "status" := v ]}.

(** The first answer is [{done: false}], the second
    [{done: true, response: {value: X}}]. *)
Definition scenarioA (X : Value) : list Action :=
  [ Subscribe "complete" 0%nat;
    Respond VNull {[ "done" := VBool false ]};
    Tick;
    Respond VNull {[ "done" := VBool true; "response" := VObj {[ "value" := X ]} ]} ].

(** The handle a run ends in; the starting handle when the run gets stuck. *)
Definition final_state (decorateStatus_ : Value -> Value) (t : list Action)
    (w : World) : World :=
  default w (run decorateStatus_ t w).

(** Sample answers of the transport. *)
Definition answer_pending : gmap string Value := {[ "done" := VBool false ]}.

Definition answer_done : gmap string Value :=
  {[ "done" := VBool true; "response" := VObj {[ "value" := VStr "fn" ]} ]}.

Definition answer_failed : gmap string Value :=
  {[ "error" := VObj {[ "code" := VNum 5 ]};
     "result" := VObj {[ "code" := VNum 5; "message" := VStr "not found" ]} ]}.

Definition transport_error : Value := VObj {[ "message" := VStr "UNAVAILABLE" ]}.

(** ** The parent client: [Functions.prototype.operation] and [_formatName] *)

(** The two fields of [Functions] that [_formatName] reads. *)
Record Functions : Type := mkFunctions {
  projectId : Value;
  region : Value
}.

Inductive Thrown : Type :=
  | Error (message : string).

(** [Functions.prototype.operation]: [inl] is a synchronous [throw]. *)
Definition operation (nm : Value) : Thrown + World :=
  if negb (truthy nm)
  then inl (Error "A name must be specified for an operation.")
  else inr (new_Operation nm).

(** [s.indexOf(c)] for a one-character needle: the first position, or -1. *)
Fixpoint indexOf (c : ascii) (s : string) : Z :=
  match s with
  | EmptyString => -1
  | String a s' =>
      if Ascii.eqb a c then 0
      else let i := indexOf c s' in if i <? 0 then -1 else i + 1
  end.

(** [Functions.prototype._formatName]; [functionPath] is
    [this.api.Functions.functionPath], which the generated client supplies. *)
Definition _formatName (functionPath : Value -> Value -> string -> string)
    (this : Functions) (pid reg : Value) (nm : string) : string :=
  if indexOf "/"%char nm >? -1 then nm
  else functionPath (js_or pid (projectId this)) (js_or reg (region this)) nm.

(** Modelled from the spec: the generated [functionPath] is not among the
    sources; the comment on [_formatName] gives the format of its result,
    'projects/{projectId}/locations/{region}/functions/{name}'. A binding
    that is not a string is rendered empty here. *)
Definition path_segment (v : Value) : string :=
  match v with
  | VStr s => s
  | _ => ""
  end.

Definition functionPath_template (pid reg : Value) (nm : string) : string :=
  "projects/" ++ path_segment pid ++ "/locations/" ++ path_segment reg
    ++ "/functions/" ++ nm.

(** ** Well-formed handles

    The two closures of [listenForEvents_] stay registered, first in their
    lists, since callers only ever add and remove functions of their own and
    [promise] only subscribes to ['error'] and ['complete']. *)

Definition is_user (l : Listener) : bool :=
  match l with User _ => true | _ => false end.

Definition is_hook (l : Listener) : bool :=
  match l with NewListenerHook | RemoveListenerHook => true | _ => false end.

Record wf (w : World) : Prop := mk_wf {
  wf_new : exists us, listeners w "newListener" = NewListenerHook :: us
                      /\ Forall (fun l => is_user l = true) us;
  wf_remove : exists us, listeners w "removeListener" = RemoveListenerHook :: us
                         /\ Forall (fun l => is_user l = true) us;
  wf_other : forall ev, ev <> "newListener" -> ev <> "removeListener" ->
                        Forall (fun l => is_hook l = false) (listeners w ev);
  wf_count : completeListeners (op w) = Z.of_nat (length (listeners w "complete"));
  wf_flag : hasActiveListeners (op w) = true <-> 0 < completeListeners (op w)
}.

(** Listeners other than the two hooks leave everything but the promises
    alone. *)
Definition same_handle (w w' : World) : Prop :=
  op w' = op w /\ inflight w' = inflight w /\ timers w' = timers w
  /\ effects w' = effects w.

(** The handle once [ls'] has replaced the listeners of [ev]. *)
Definition unregistered (ev : string) (ls' : list Listener) (w : World) : World :=
  with_op (fun o =>
     set_events (match ls' with
                 | [] => delete ev (_events o)
                 | _ => <[ev := ls']> (_events o)
                 end) o) w.

(** [promise] with its fresh promise cell in place. *)
Definition with_promise (w : World) : World :=
  mkWorld (op w) (inflight w) (timers w) (promises w ++ [Pending]) (effects w).

(** ** The poller seen through the fields it reads and writes *)

(** The part of the state the poller reads and writes. *)
Record View : Type := mkView {
  v_count : Z;
  v_flag : bool;
  v_inflight : nat;
  v_timers : list Z;
  v_fetches : nat;
  v_terminal : bool
}.

Definition view (w : World) : View :=
  mkView (completeListeners (op w)) (hasActiveListeners (op w))
         (inflight w) (timers w) (fetches w) (terminal w).

(** [newListener_hook] and [removeListener_hook] on views. *)
Definition view_subscribe (ev : string) (v : View) : View :=
  if String.eqb ev "complete" then
    if v_flag v
    then mkView (v_count v + 1) true (v_inflight v) (v_timers v) (v_fetches v) (v_terminal v)
    else mkView (v_count v + 1) true (S (v_inflight v)) (v_timers v) (S (v_fetches v))
                (v_terminal v)
  else v.

Definition view_unsubscribe (ev : string) (v : View) : View :=
  if String.eqb ev "complete" then
    mkView (v_count v - 1) (if v_count v - 1 =? 0 then false else v_flag v)
           (v_inflight v) (v_timers v) (v_fetches v) (v_terminal v)
  else v.

(** The poller's moves on views. *)
Inductive vstep : Action -> View -> View -> Prop :=
  | vs_subscribe ev id v :
      vstep (Subscribe ev id) v (view_subscribe ev v)
  | vs_unsubscribe_absent ev id v :
      vstep (Unsubscribe ev id) v v
  | vs_unsubscribe ev id v :
      vstep (Unsubscribe ev id) v (view_unsubscribe ev v)
  | vs_promise v :
      vstep MakePromise v (view_subscribe "complete" v)
  | vs_respond_terminal err resp v n :
      v_inflight v = S n ->
      truthy err || truthy (prop resp "error") || truthy (prop resp "done") = true ->
      vstep (Respond err resp) v
        (mkView (v_count v) (v_flag v) n (v_timers v) (v_fetches v) true)
  | vs_respond_again err resp v n :
      v_inflight v = S n ->
      truthy err || truthy (prop resp "error") || truthy (prop resp "done") = false ->
      vstep (Respond err resp) v
        (mkView (v_count v) (v_flag v) n (v_timers v ++ [500]) (v_fetches v)
                (v_terminal v))
  | vs_tick_active v d ts :
      v_timers v = d :: ts -> v_flag v = true ->
      vstep Tick v
        (mkView (v_count v) true (S (v_inflight v)) ts (S (v_fetches v)) (v_terminal v))
  | vs_tick_idle v d ts :
      v_timers v = d :: ts -> v_flag v = false ->
      vstep Tick v
        (mkView (v_count v) false (v_inflight v) ts (v_fetches v) (v_terminal v)).

(** While no terminal event has fired, an active handle has a poll cycle
    pending. *)
Definition alive (v : View) : Prop :=
  v_terminal v = false -> v_flag v = true ->
  (1 <= v_inflight v + length (v_timers v))%nat.

(** Before anybody subscribes to ['complete'] nothing is sent. *)
Definition inert (v : View) : Prop :=
  v_flag v = false /\ v_fetches v = 0%nat /\ v_inflight v = 0%nat /\ v_timers v = [].

(** At most one poll cycle is pending. *)
Definition one_loop (v : View) : Prop :=
  (v_inflight v + length (v_timers v) <= 1)%nat.

(** The same, together with the fact that an idle handle that was never
    left by its subscribers has nothing pending. *)
Definition one_loop_strict (v : View) : Prop :=
  (v_flag v = false /\ (v_inflight v + length (v_timers v) = 0)%nat)
  \/ (v_flag v = true /\ (v_inflight v + length (v_timers v) <= 1)%nat).

(** Nothing is pending and nothing more has been sent. *)
Definition at_rest (n : nat) (v : View) : Prop :=
  v_inflight v = 0%nat /\ v_timers v = [] /\ v_fetches v = n.

(** ** Promises and their handlers *)

Definition is_complete_listener (l : Listener) : bool :=
  match l with User _ | PromiseResolve _ => true | _ => false end.

Definition is_error_listener (l : Listener) : bool :=
  match l with User _ | PromiseReject _ => true | _ => false end.

(** ['complete'] has callers' functions and resolvers only, ['error']
    callers' functions and rejecters only. *)
Definition tidy (w : World) : Prop :=
  Forall (fun l => is_complete_listener l = true) (listeners w "complete")
  /\ Forall (fun l => is_error_listener l = true) (listeners w "error").

(** Promise [p] is pending with both its handlers registered. *)
Definition armed (p : nat) (w : World) : Prop :=
  promises w !! p = Some Pending
  /\ PromiseResolve p ∈ listeners w "complete"
  /\ PromiseReject p ∈ listeners w "error".

Ltac vstep_cases H :=
  inversion H; subst; clear H;
  unfold view_subscribe, view_unsubscribe in *; simpl in *;
  repeat case_match; simpl in *;
  try match goal with
      | E : v_timers _ = _ :: _ |- _ => rewrite E in *; simpl in *
      | E : timers _ = _ :: _ |- _ => rewrite E in *; simpl in *
      end.

(** ** Further observations on a run *)

(** The names the status requests of the log were sent for, most recent
    first. *)
Definition fetch_names (w : World) : list Value :=
  omap (fun e => match e with Fetch n => Some n | _ => None end) (effects w).

(** The arguments of the ['error'] events that made [emit] throw because
    nobody listened, most recent first. *)
Definition uncaught (w : World) : list Value :=
  omap (fun e => match e with Uncaught v => Some v | _ => None end) (effects w).

(** What [emit] throws for an ['error'] event with argument [er] that nobody
    listens to: [if (er instanceof Error) throw er;], and otherwise a new
    [Error] made for the occasion, with [err.context = er].  A value does not
    tell the class of an object, so the test is a parameter. *)
Inductive Exception : Type :=
  | ThrowsArgument (er : Value)
  | ThrowsUnhandled (context : Value).

Definition unhandled (instanceof_Error : Value -> bool) (er : Value) : Exception :=
  if instanceof_Error er then ThrowsArgument er else ThrowsUnhandled er.

(** The exceptions thrown by [emit] so far, most recent first. *)
Definition exceptions (instanceof_Error : Value -> bool) (w : World)
    : list Exception :=
  map (unhandled instanceof_Error) (uncaught w).

Definition is_nil {A} (l : list A) : bool :=
  match l with [] => true | _ => false end.

(** Is the answer one that makes the poll cycle set a timer? *)
Definition reschedules (a : Action) : bool :=
  match a with
  | Respond err resp =>
      negb (truthy err || truthy (prop resp "error") || truthy (prop resp "done"))
  | _ => false
  end.

Fixpoint count_actions (f : Action -> bool) (t : list Action) : nat :=
  match t with
  | [] => O
  | a :: t' => if f a then S (count_actions f t') else count_actions f t'
  end.

(** The argument of the ['error'] event that an action emits while nobody
    listens to ['error'], if it emits one. *)
Definition thrown_by (decorateStatus_ : Value -> Value) (a : Action) (w : World)
    : list Value :=
  match a with
  | Respond err resp =>
      if (truthy err || truthy (prop resp "error")) && is_nil (listeners w "error")
      then [js_or err (decorateStatus_ (prop resp "result"))]
      else []
  | _ => []
  end.

(** The rejecter of promise [p] listens to ['error']. *)
Definition guards_errors (p : nat) (w : World) : Prop :=
  PromiseReject p ∈ listeners w "error".

(** ** The formatters of the parent client *)

(** [s.indexOf(needle)]: the first position at which [needle] occurs in
    [s], or -1. *)
Fixpoint indexOf_str (needle s : string) : Z :=
  if String.prefix needle s then 0
  else match s with
       | EmptyString => -1
       | String _ s' =>
           let i := indexOf_str needle s' in if i <? 0 then -1 else i + 1
       end.

(** [s.lastIndexOf(c)] for a one-character needle: the last position, or -1. *)
Fixpoint lastIndexOf (c : ascii) (s : string) : Z :=
  match s with
  | EmptyString => -1
  | String a s' =>
      let i := lastIndexOf c s' in
      if 0 <=? i then i + 1 else if Ascii.eqb a c then 0 else -1
  end.

(** [Functions.prototype._formatGcsTrigger] *)
Definition _formatGcsTrigger (bucketName : string) : string :=
  let bucketName :=
    if negb (indexOf_str "gs://" bucketName =? 0)
    then "gs://" +:+ bucketName else bucketName in
  if negb (lastIndexOf "/"%char bucketName =? Z.of_nat (String.length bucketName) - 1)
  then bucketName +:+ "/" else bucketName.

(** [Functions.prototype._formatPubsubTrigger(projectId, topicName)].  A
    caller may leave [topicName] out; [topicName.indexOf] then throws a
    [TypeError]. *)
Definition _formatPubsubTrigger (pid : string) (topicName : option string)
    : Thrown + string :=
  match topicName with
  | None => inl (Error "TypeError: Cannot read property 'indexOf' of undefined")
  | Some topic =>
      inr (if indexOf_str "projects/" topic =? 0 then topic
           else "projects/" +:+ pid +:+ "/topics/" +:+ topic)
  end.

(** [Functions.prototype._formatHttpsTrigger] *)
Definition _formatHttpsTrigger (pid reg nm : string) : string :=
  "https://" +:+ reg +:+ "-" +:+ pid +:+ ".cloudfunctions.net/" +:+ nm.

(** ** Objects of configuration *)

(** The tests of the [is] package used here. *)
Definition is_string (v : Value) : bool :=
  match v with VStr _ => true | _ => false end.

Definition is_object (v : Value) : bool :=
  match v with VObj _ => true | _ => false end.

Definition is_function (v : Value) : bool :=
  match v with VFun _ => true | _ => false end.

Definition is_undefined (v : Value) : bool :=
  match v with VUndefined => true | _ => false end.

(** [extend(target, source)], shallow: every property of [source] whose
    value is not [undefined] is written over [target]. *)
Definition extend (target source : gmap string Value) : gmap string Value :=
  filter (fun kv => is_undefined kv.2 = false) source ∪ target.

(** The [Functions] constructor, as far as [projectId] and [region] go;
    [env_project] is [process.env.GCLOUD_PROJECT]. *)
Definition new_Functions (options : gmap string Value) (env_project : Value)
    : Functions :=
  mkFunctions (js_or (prop options "projectId") env_project)
              (js_or (prop options "region") (VStr "us-central1")).

(** ** [CloudFunction] *)

Record CloudFunction : Type := mkCloudFunction {
  cf_functions : Functions;
  cf_name : string;
  cf_metadata : gmap string Value
}.

(** The [CloudFunction] constructor.  [functions] is the client or nothing,
    [config] an object or nothing. *)
Definition new_CloudFunction (functionPath : Value -> Value -> string -> string)
    (functions : option Functions) (nm : Value) (config : option (gmap string Value))
    : Thrown + CloudFunction :=
  match functions with
  | None => inl (Error "A functions service object name must be provided.")
  | Some fns =>
      let config :=
        extend {[ "projectId" := projectId fns; "region" := region fns ]}
               (default ∅ config) in
      match nm with
      | VStr n =>
          if negb (is_object (VObj config)) then
            inl (Error "A function configuration object must be provided.")
          else if negb (is_string (prop config "projectId")) then
            inl (Error "A project string must be provided.")
          else if negb (is_string (prop config "region")) then
            inl (Error "A region string must be provided.")
          else
            let metadata := extend ∅ config in
            inr (mkCloudFunction fns n
                   (<["name" := VStr (_formatName functionPath fns
                                        (prop metadata "projectId")
                                        (prop metadata "region") n)]> metadata))
      | _ => inl (Error "A function name must be provided.")
      end
  end.

(** [Functions.prototype.cloudfunction] *)
Definition cloudfunction (functionPath : Value -> Value -> string -> string)
    (this : Functions) (nm : Value) (options : option (gmap string Value))
    : Thrown + CloudFunction :=
  new_CloudFunction functionPath (Some this) nm options.

(** The call [CloudFunction.prototype.call] makes to [callFunction]. *)
Record CallFunctionRequest : Type := mkCallFunctionRequest {
  cr_name : Value;
  cr_data : Value;
  cr_options : Value;
  cr_callback : Value
}.

(** [CloudFunction.prototype.call], up to the request; [stringify] is
    [JSON.stringify]. *)
Definition CloudFunction_call (stringify : Value -> Value) (cf : CloudFunction)
    (data options callback : Value) : Thrown + CallFunctionRequest :=
  let '(data, options, callback) :=
    if is_function data then (VStr "", VObj ∅, data)
    else if is_function options then (data, VObj ∅, options)
    else (data, options, callback) in
  if negb (is_string data) && negb (truthy data) then
    inl (Error "A data data value must be provided.")
  else if negb (is_object options) then
    inl (Error "A configuration object must be provided.")
  else
    inr (mkCallFunctionRequest (prop (cf_metadata cf) "name")
           (if is_string data then data else stringify data)
           options callback).

(** ** [Functions.prototype.createFunction], up to the request *)

(** How the first part of [createFunction] ends. *)
Inductive RequestOutcome : Type :=
  | CallbackError (err : Value)
  | Throws (e : Thrown)
  | Sends (body : gmap string Value).

(** The body [createFunction] builds before [makeRequest].  The location,
    rendered by the generated [locationPath], is not part of the body and is
    left out. *)
Definition createFunction_body (functionPath : Value -> Value -> string -> string)
    (this : Functions) (nm : string) (config : gmap string Value)
    : gmap string Value :=
  let config :=
    extend {[ "projectId" := projectId this; "region" := region this ]} config in
  extend config
    {[ "name" := VStr (_formatName functionPath this (prop config "projectId")
                         (prop config "region") nm) ]}.

(** The triggers as [makeRequest] formats them; [_formatPubsubTrigger] is
    called with the trigger alone, as in the source.  [None] where a
    formatter is handed a value that is not a string, which is not
    modelled. *)
Definition format_triggers (nm : string) (body : gmap string Value)
    : option (Thrown + gmap string Value) :=
  if truthy (prop body "gcsTrigger") then
    match prop body "gcsTrigger" with
    | VStr s => Some (inr (<["gcsTrigger" := VStr (_formatGcsTrigger s)]> body))
    | _ => None
    end
  else if truthy (prop body "pubsubTrigger") then
    match prop body "pubsubTrigger" with
    | VStr s =>
        Some (match _formatPubsubTrigger s None with
              | inl e => inl e
              | inr r => inr (<["pubsubTrigger" := VStr r]> body)
              end)
    | _ => None
    end
  else if truthy (prop body "httpsTrigger") then
    match prop body "projectId", prop body "region" with
    | VStr p, VStr r =>
        Some (inr (<["httpsTrigger" :=
                       VObj {[ "url" := VStr (_formatHttpsTrigger p r nm) ]}]> body))
    | _, _ => None
    end
  else Some (inr body).

(** [makeRequest(err, gcsUrl)] of [createFunction], up to the call of the
    API. *)
Definition makeRequest (nm : string) (body : gmap string Value) (err gcsUrl : Value)
    : option RequestOutcome :=
  if truthy err then Some (CallbackError err)
  else
    let body := if truthy gcsUrl then <["gcsUrl" := gcsUrl]> body else body in
    match format_triggers nm body with
    | None => None
    | Some (inl e) => Some (Throws e)
    | Some (inr body) =>
        let body :=
          if truthy (prop body "timeout")
          then <["timeout" := VObj {[ "seconds" := prop body "timeout" ]}]> body
          else body in
        Some (Sends (delete "region" (delete "projectId" body)))
    end.

(** [createFunction] for a configuration without [localDir] (with one the
    directory is uploaded first, which is not modelled: [None]). *)
Definition createFunction_request (functionPath : Value -> Value -> string -> string)
    (this : Functions) (nm : string) (config : gmap string Value)
    : option RequestOutcome :=
  let body := createFunction_body functionPath this nm config in
  if truthy (prop body "localDir") then None
  else makeRequest nm body VNull (prop body "gcsUrl").

(** ** The callback of [CloudFunction.prototype.delete] *)

(** What the function handed to [deleteFunction] passes on to the caller's
    callback: [(err, null, response)], or [(null, operation, response)] with
    [operation.metadata] set to the response. *)
Inductive CallbackArgs : Type :=
  | Failed (err : Value) (response : gmap string Value)
  | Started (operation : World) (metadata response : gmap string Value).

(** The callback itself; [inl] when it throws instead of calling back. *)
Definition delete_callback (err : Value) (response : gmap string Value)
    : Thrown + CallbackArgs :=
  if truthy err then inr (Failed err response)
  else match operation (prop response "name") with
       | inl e => inl e
       | inr w => inr (Started w response response)
       end.

(** The body of a request that was sent; empty when none was. *)
Definition sent_body (o : option RequestOutcome) : gmap string Value :=
  match o with
  | Some (Sends b) => b
  | _ => ∅
  end.

(** A sample test for [Error] instances: the objects that carry a message
    string. *)
Definition sample_instanceof_Error (v : Value) : bool :=
  is_string (member v "message").

(** A sample client and sample configurations. *)
Definition sample_client : Functions :=
  mkFunctions (VStr "my-project") (VStr "us-central1").

Definition config_gcs : gmap string Value :=
  {[ "gcsTrigger" := VStr "my-bucket"; "timeout" := VNum 60 ]}.

Definition config_pubsub : gmap string Value :=
  {[ "pubsubTrigger" := VStr "my-topic" ]}.

Definition config_place : gmap string Value :=
  {[ "projectId" := VStr "other-project"; "region" := VStr "europe-west1" ]}.

(** ** Basic facts about values and the emitter *)

Example prop_test :
  prop {[ "done" := VBool true; "name" := VStr "op" ]} "done" = VBool true.
Proof. vm_compute. reflexivity. Qed.

Lemma foldl_call_users (us : list Listener) (args : list Value) (w : World) :
  Forall (fun l => is_user l = true) us ->
  foldl (fun acc l => call l args acc) w us = w.
Proof.
  intros H. revert w. induction H as [|l us Hl _ IH]; intros w; simpl.
  - reflexivity.
  - destruct l; try discriminate. simpl. apply IH.
Qed.

Lemma listeners_record (e : Effect) (w : World) (ev : string) :
  listeners (record e w) ev = listeners w ev.
Proof. reflexivity. Qed.

Lemma emit_newListener (args : list Value) (w : World) :
  wf w ->
  emit "newListener" args w
  = newListener_hook (hd VUndefined args)
      (record (Emit "newListener" args (listeners w "newListener")) w).
Proof.
  intros [[us [E Hu]] _ _ _ _]. unfold emit. rewrite E. simpl.
  apply foldl_call_users, Hu.
Qed.

Lemma emit_removeListener (args : list Value) (w : World) :
  (exists us, listeners w "removeListener" = RemoveListenerHook :: us
              /\ Forall (fun l => is_user l = true) us) ->
  emit "removeListener" args w
  = removeListener_hook (hd VUndefined args)
      (record (Emit "removeListener" args (listeners w "removeListener")) w).
Proof.
  intros [us [E Hu]]. unfold emit. rewrite E. simpl.
  apply foldl_call_users, Hu.
Qed.

Lemma call_plain (l : Listener) (args : list Value) (w : World) :
  is_hook l = false -> same_handle w (call l args w).
Proof.
  intros H. destruct l; try discriminate; simpl; unfold same_handle, settle;
    repeat case_match; simpl; auto.
Qed.

Lemma foldl_call_plain (ls : list Listener) (args : list Value) (w : World) :
  Forall (fun l => is_hook l = false) ls ->
  same_handle w (foldl (fun acc l => call l args acc) w ls).
Proof.
  intros H. revert w. induction H as [|l ls Hl _ IH]; intros w; simpl.
  - unfold same_handle; auto.
  - destruct (call_plain l args w Hl) as (E1 & E2 & E3 & E4).
    destruct (IH (call l args w)) as (F1 & F2 & F3 & F4).
    unfold same_handle. rewrite F1, F2, F3, F4. auto.
Qed.

(** Emitting ['complete'] or ['error'] touches the log and the promises
    only. *)
Lemma emit_plain (ev : string) (args : list Value) (w : World) :
  Forall (fun l => is_hook l = false) (listeners w ev) ->
  op (emit ev args w) = op w /\ inflight (emit ev args w) = inflight w
  /\ timers (emit ev args w) = timers w
  /\ exists pre, effects (emit ev args w)
                  = pre ++ Emit ev args (listeners w ev) :: effects w
                  /\ (pre = [] \/ pre = [Uncaught (hd VUndefined args)]).
Proof.
  intros H. unfold emit.
  destruct (foldl_call_plain (listeners w ev) args
              (record (Emit ev args (listeners w ev)) w) H) as (E1 & E2 & E3 & E4).
  simpl in *.
  destruct (listeners w ev) as [|l ls] eqn:El.
  - destruct (String.eqb ev "error"); simpl; repeat split; auto.
    + exists [Uncaught (hd VUndefined args)]. auto.
    + exists []. auto.
  - repeat split; auto. exists []. rewrite E4. auto.
Qed.

(** ** The hooks on views *)

Lemma fetches_record (e : Effect) (w : World) :
  fetches (record e w) = if is_fetch e then S (fetches w) else fetches w.
Proof. unfold fetches. simpl. destruct (is_fetch e); reflexivity. Qed.

Lemma view_startPolling (w : World) :
  view (startPolling_ w)
  = if hasActiveListeners (op w)
    then mkView (completeListeners (op w)) true (S (inflight w)) (timers w)
                (S (fetches w)) (terminal w)
    else view w.
Proof.
  unfold startPolling_. destruct (hasActiveListeners (op w)) eqn:E; simpl.
  - unfold view. simpl. rewrite E. reflexivity.
  - reflexivity.
Qed.

Lemma view_newListener_hook (ev : string) (w : World) :
  view (newListener_hook (VStr ev) w) = view_subscribe ev (view w).
Proof.
  unfold newListener_hook, view_subscribe. simpl.
  destruct (String.eqb ev "complete"); [|reflexivity].
  destruct (hasActiveListeners (op w)) eqn:E; simpl.
  - unfold view. simpl. rewrite E. reflexivity.
  - rewrite view_startPolling. reflexivity.
Qed.

Lemma view_removeListener_hook (ev : string) (w : World) :
  view (removeListener_hook (VStr ev) w) = view_unsubscribe ev (view w).
Proof.
  unfold removeListener_hook, view_unsubscribe. simpl.
  destruct (String.eqb ev "complete"); [|reflexivity].
  destruct (completeListeners (op w) - 1 =? 0); reflexivity.
Qed.

Lemma events_newListener_hook (e : Value) (w : World) :
  _events (op (newListener_hook e w)) = _events (op w)
  /\ promises (newListener_hook e w) = promises w.
Proof.
  unfold newListener_hook, startPolling_.
  repeat (case_match; simpl); auto.
Qed.

Lemma events_removeListener_hook (e : Value) (w : World) :
  _events (op (removeListener_hook e w)) = _events (op w)
  /\ promises (removeListener_hook e w) = promises w.
Proof.
  unfold removeListener_hook.
  repeat (case_match; simpl); auto.
Qed.

(** ** [on] *)

Lemma on_unfold (ev : string) (l : Listener) (w : World) :
  wf w ->
  on ev l w
  = let w1 := newListener_hook (VStr ev)
                (record (Emit "newListener" [VStr ev; VFun l]
                           (listeners w "newListener")) w) in
    with_op (fun o => set_events (<[ev := listeners w ev ++ [l]]> (_events o)) o) w1.
Proof.
  intros Hw. unfold on.
  destruct (wf_new w Hw) as [us [E _]]. rewrite E. rewrite <- E.
  rewrite emit_newListener by assumption. simpl.
  unfold listeners at 1.
  rewrite (proj1 (events_newListener_hook _ _)). reflexivity.
Qed.

Lemma listeners_on (ev ev' : string) (l : Listener) (w : World) :
  wf w ->
  listeners (on ev l w) ev'
  = if decide (ev = ev') then listeners w ev ++ [l] else listeners w ev'.
Proof.
  intros Hw. rewrite on_unfold by assumption. unfold listeners at 1. simpl.
  rewrite (proj1 (events_newListener_hook _ _)). simpl.
  rewrite lookup_insert. destruct (decide (ev = ev')); reflexivity.
Qed.

Lemma view_on (ev : string) (l : Listener) (w : World) :
  wf w -> view (on ev l w) = view_subscribe ev (view w).
Proof.
  intros Hw. rewrite on_unfold by assumption.
  transitivity (view (newListener_hook (VStr ev)
                        (record (Emit "newListener" [VStr ev; VFun l]
                                   (listeners w "newListener")) w))).
  - reflexivity.
  - rewrite view_newListener_hook. reflexivity.
Qed.

Lemma promises_on (ev : string) (l : Listener) (w : World) :
  wf w -> promises (on ev l w) = promises w.
Proof.
  intros Hw. rewrite on_unfold by assumption. simpl.
  rewrite (proj2 (events_newListener_hook _ _)). reflexivity.
Qed.

Lemma Forall_snoc {A} (P : A -> Prop) (xs : list A) (x : A) :
  Forall P xs -> P x -> Forall P (xs ++ [x]).
Proof. intros H1 H2. apply Forall_app. split; [assumption | constructor; auto]. Qed.

Lemma user_not_hook (l : Listener) : is_user l = true -> is_hook l = false.
Proof. destruct l; simpl; congruence. Qed.

Lemma on_wf (ev : string) (l : Listener) (w : World) :
  wf w ->
  is_hook l = false ->
  (ev = "newListener" \/ ev = "removeListener" -> is_user l = true) ->
  wf (on ev l w).
Proof.
  intros Hw Hl Hu.
  pose proof (view_on ev l w Hw) as Hv.
  destruct Hw as [Hn Hr Ho Hc Hf].
  assert (Hw : wf w) by (constructor; assumption).
  constructor.
  - rewrite listeners_on by assumption. destruct Hn as [us [E F]].
    destruct (decide (ev = "newListener")) as [->|]; [|eauto].
    exists (us ++ [l]). rewrite E. split; [reflexivity|].
    apply Forall_snoc; auto.
  - rewrite listeners_on by assumption. destruct Hr as [us [E F]].
    destruct (decide (ev = "removeListener")) as [->|]; [|eauto].
    exists (us ++ [l]). rewrite E. split; [reflexivity|].
    apply Forall_snoc; auto.
  - intros ev' H1 H2. rewrite listeners_on by assumption.
    destruct (decide (ev = ev')) as [->|]; [|auto].
    apply Forall_snoc; auto.
  - assert (Hcount : completeListeners (op (on ev l w))
                     = v_count (view_subscribe ev (view w)))
      by (rewrite <- Hv; reflexivity).
    rewrite Hcount. rewrite listeners_on by assumption.
    unfold view_subscribe. simpl.
    destruct (decide (ev = "complete")) as [->|Hne].
    + simpl. rewrite length_app. simpl.
      destruct (hasActiveListeners (op w)); simpl; lia.
    + apply String.eqb_neq in Hne. rewrite Hne. simpl. assumption.
  - assert (Hcount : completeListeners (op (on ev l w))
                     = v_count (view_subscribe ev (view w)))
      by (rewrite <- Hv; reflexivity).
    assert (Hflag : hasActiveListeners (op (on ev l w))
                    = v_flag (view_subscribe ev (view w)))
      by (rewrite <- Hv; reflexivity).
    rewrite Hcount, Hflag. unfold view_subscribe. simpl.
    destruct (String.eqb ev "complete"); simpl; [|assumption].
    destruct (hasActiveListeners (op w)); simpl; split; auto; intros _; lia.
Qed.

(** ** [removeListener] *)

Lemma remove_last_length (l : Listener) (ls ls' : list Listener) :
  remove_last l ls = Some ls' -> length ls = S (length ls').
Proof.
  revert ls'. induction ls as [|x xs IH]; intros ls' H; simpl in H.
  - discriminate.
  - destruct (remove_last l xs) as [xs'|].
    + injection H as <-. simpl. f_equal. apply IH. reflexivity.
    + destruct (decide (x = l)); [|discriminate]. injection H as <-. reflexivity.
Qed.

Lemma remove_last_Forall (P : Listener -> Prop) (l : Listener) (ls ls' : list Listener) :
  Forall P ls -> remove_last l ls = Some ls' -> Forall P ls'.
Proof.
  intros HP. revert ls'. induction HP as [|x xs Hx Hxs IH]; intros ls' H; simpl in H.
  - discriminate.
  - destruct (remove_last l xs) as [xs'|].
    + injection H as <-. constructor; auto.
    + destruct (decide (x = l)); [|discriminate]. injection H as <-. assumption.
Qed.

Lemma remove_last_head (l x : Listener) (xs ls' : list Listener) :
  x <> l -> remove_last l (x :: xs) = Some ls' ->
  exists xs', ls' = x :: xs' /\ remove_last l xs = Some xs'.
Proof.
  intros Hne H. simpl in H. destruct (remove_last l xs) as [xs'|].
  - injection H as <-. eauto.
  - destruct (decide (x = l)); [contradiction | discriminate].
Qed.

Lemma remove_last_elem (l x : Listener) (ls ls' : list Listener) :
  x ∈ ls -> x <> l -> remove_last l ls = Some ls' -> x ∈ ls'.
Proof.
  revert ls'. induction ls as [|y ys IH]; intros ls' Hx Hne H; simpl in H.
  - inversion Hx.
  - destruct (remove_last l ys) as [ys'|] eqn:E.
    + injection H as <-. apply elem_of_cons in Hx as [->|Hx].
      * apply elem_of_cons. auto.
      * apply elem_of_cons. right. apply IH; auto.
    + destruct (decide (y = l)) as [->|]; [|discriminate]. injection H as <-.
      apply elem_of_cons in Hx as [->|Hx]; [contradiction | assumption].
Qed.

Lemma listeners_unregistered (ev ev' : string) (ls' : list Listener) (w : World) :
  listeners (unregistered ev ls' w) ev'
  = if decide (ev = ev') then ls' else listeners w ev'.
Proof.
  unfold listeners, unregistered. simpl. destruct ls' as [|x xs].
  - rewrite lookup_delete. destruct (decide (ev = ev')); reflexivity.
  - rewrite lookup_insert. destruct (decide (ev = ev')); reflexivity.
Qed.

Lemma removeListener_absent (ev : string) (l : Listener) (w : World) :
  remove_last l (listeners w ev) = None -> removeListener ev l w = w.
Proof. intros H. unfold removeListener. rewrite H. reflexivity. Qed.

Lemma unregistered_hook (ev : string) (l : Listener) (ls' : list Listener) (w : World) :
  wf w -> is_user l = true ->
  remove_last l (listeners w ev) = Some ls' ->
  exists us, listeners (unregistered ev ls' w) "removeListener" = RemoveListenerHook :: us
             /\ Forall (fun l => is_user l = true) us.
Proof.
  intros Hw Hl H. rewrite listeners_unregistered.
  destruct (wf_remove w Hw) as [us [E F]].
  destruct (decide (ev = "removeListener")) as [->|]; [|eauto].
  rewrite E in H.
  destruct (remove_last_head l RemoveListenerHook us ls') as [us' [-> H']]; auto.
  - intros <-. discriminate.
  - exists us'. split; [reflexivity|]. eapply remove_last_Forall; eauto.
Qed.

Lemma removeListener_unfold (ev : string) (l : Listener) (ls' : list Listener) (w : World) :
  wf w -> is_user l = true ->
  remove_last l (listeners w ev) = Some ls' ->
  removeListener ev l w
  = removeListener_hook (VStr ev)
      (record (Emit "removeListener" [VStr ev; VFun l]
                 (listeners (unregistered ev ls' w) "removeListener"))
         (unregistered ev ls' w)).
Proof.
  intros Hw Hl H. unfold removeListener. rewrite H.
  fold (unregistered ev ls' w).
  destruct (unregistered_hook ev l ls' w Hw Hl H) as [us [E F]].
  rewrite E. rewrite <- E.
  apply (emit_removeListener [VStr ev; VFun l]). eauto.
Qed.

Lemma view_removeListener (ev : string) (l : Listener) (ls' : list Listener) (w : World) :
  wf w -> is_user l = true ->
  remove_last l (listeners w ev) = Some ls' ->
  view (removeListener ev l w) = view_unsubscribe ev (view w).
Proof.
  intros Hw Hl H. rewrite (removeListener_unfold ev l ls') by assumption.
  rewrite view_removeListener_hook. reflexivity.
Qed.

Lemma listeners_removeListener (ev ev' : string) (l : Listener) (ls' : list Listener)
    (w : World) :
  wf w -> is_user l = true ->
  remove_last l (listeners w ev) = Some ls' ->
  listeners (removeListener ev l w) ev'
  = if decide (ev = ev') then ls' else listeners w ev'.
Proof.
  intros Hw Hl H. rewrite (removeListener_unfold ev l ls') by assumption.
  unfold listeners at 1. rewrite (proj1 (events_removeListener_hook _ _)).
  apply listeners_unregistered.
Qed.

Lemma promises_removeListener (ev : string) (l : Listener) (w : World) :
  wf w -> is_user l = true ->
  promises (removeListener ev l w) = promises w.
Proof.
  intros Hw Hl. destruct (remove_last l (listeners w ev)) as [ls'|] eqn:H.
  - rewrite (removeListener_unfold ev l ls') by assumption.
    rewrite (proj2 (events_removeListener_hook _ _)). reflexivity.
  - rewrite removeListener_absent by assumption. reflexivity.
Qed.

Lemma removeListener_wf (ev : string) (l : Listener) (w : World) :
  wf w -> is_user l = true -> wf (removeListener ev l w).
Proof.
  intros Hw Hl. destruct (remove_last l (listeners w ev)) as [ls'|] eqn:H.
  2: { rewrite removeListener_absent by assumption. assumption. }
  pose proof (view_removeListener ev l ls' w Hw Hl H) as Hv.
  assert (Hcount : completeListeners (op (removeListener ev l w))
                   = v_count (view_unsubscribe ev (view w)))
    by (rewrite <- Hv; reflexivity).
  assert (Hflag : hasActiveListeners (op (removeListener ev l w))
                  = v_flag (view_unsubscribe ev (view w)))
    by (rewrite <- Hv; reflexivity).
  pose proof (remove_last_length _ _ _ H) as Hlen.
  constructor.
  - rewrite (listeners_removeListener ev _ l ls') by assumption.
    destruct (wf_new w Hw) as [us [E F]].
    destruct (decide (ev = "newListener")) as [->|]; [|eauto].
    rewrite E in H.
    destruct (remove_last_head l NewListenerHook us ls') as [us' [-> H']]; auto.
    + intros <-. discriminate.
    + exists us'. split; [reflexivity|]. eapply remove_last_Forall; eauto.
  - rewrite (listeners_removeListener ev _ l ls') by assumption.
    rewrite <- (listeners_unregistered ev "removeListener" ls' w).
    eapply unregistered_hook; eauto.
  - intros ev' H1 H2. rewrite (listeners_removeListener ev _ l ls') by assumption.
    destruct (decide (ev = ev')) as [->|]; [|apply (wf_other w Hw); auto].
    eapply remove_last_Forall; [|exact H]. apply (wf_other w Hw); auto.
  - rewrite Hcount. rewrite (listeners_removeListener ev _ l ls') by assumption.
    pose proof (wf_count w Hw) as Hc.
    unfold view_unsubscribe. simpl.
    destruct (decide (ev = "complete")) as [->|Hne].
    + simpl. rewrite Hlen in Hc. lia.
    + apply String.eqb_neq in Hne. rewrite Hne. simpl. assumption.
  - rewrite Hcount, Hflag.
    pose proof (wf_count w Hw) as Hc. pose proof (wf_flag w Hw) as Hf.
    unfold view_unsubscribe. simpl.
    destruct (String.eqb ev "complete") eqn:Eev; simpl; [|assumption].
    apply String.eqb_eq in Eev. subst ev. rewrite Hlen in Hc.
    destruct (completeListeners (op w) - 1 =? 0) eqn:Ez.
    + apply Z.eqb_eq in Ez. split; [discriminate | lia].
    + apply Z.eqb_neq in Ez. rewrite Hf. lia.
Qed.

(** ** The constructor and [promise] *)

Lemma wf_op (w w' : World) : op w' = op w -> wf w -> wf w'.
Proof.
  intros E [Hn Hr Ho Hc Hf]. unfold listeners in *.
  constructor; unfold listeners; rewrite E; assumption.
Qed.

Lemma new_Operation_eq (nm : Value) :
  new_Operation nm
  = mkWorld
      (mkOperation nm 0 false
         (<["removeListener" := [RemoveListenerHook]]>
            (<["newListener" := [NewListenerHook]]> ∅)))
      0%nat [] []
      [Emit "newListener" [VStr "removeListener"; VFun RemoveListenerHook]
         [NewListenerHook]].
Proof. vm_compute. reflexivity. Qed.

Lemma new_Operation_wf (nm : Value) : wf (new_Operation nm).
Proof.
  rewrite new_Operation_eq. constructor; unfold listeners; simpl.
  - exists []. split; [reflexivity | constructor].
  - exists []. split; [reflexivity | constructor].
  - intros ev H1 H2. rewrite !lookup_insert_ne by congruence.
    rewrite lookup_empty. constructor.
  - reflexivity.
  - split; [discriminate | lia].
Qed.

Lemma view_new_Operation (nm : Value) :
  view (new_Operation nm) = mkView 0 false 0%nat [] 0%nat false.
Proof. rewrite new_Operation_eq. reflexivity. Qed.

Lemma promise_unfold (w : World) :
  promise w
  = (length (promises w),
     on "complete" (PromiseResolve (length (promises w)))
        (on "error" (PromiseReject (length (promises w))) (with_promise w))).
Proof. reflexivity. Qed.

Lemma promise_wf (w : World) : wf w -> wf (snd (promise w)).
Proof.
  intros Hw. rewrite promise_unfold. simpl.
  assert (wf (with_promise w)) by (eapply wf_op; [|exact Hw]; reflexivity).
  apply on_wf; [apply on_wf| |]; auto; intros [|]; discriminate.
Qed.

Lemma view_promise (w : World) :
  wf w -> view (snd (promise w)) = view_subscribe "complete" (view w).
Proof.
  intros Hw. rewrite promise_unfold. simpl.
  assert (wf (with_promise w)) by (eapply wf_op; [|exact Hw]; reflexivity).
  rewrite view_on by (apply on_wf; auto; intros [|]; discriminate).
  rewrite view_on by assumption. reflexivity.
Qed.

Lemma settle_lookup (p q : nat) (st : PromiseState) (w : World) :
  promises (settle q st w) !! p
  = if decide (p = q)
    then match promises w !! p with
         | Some Pending => Some st
         | o => o
         end
    else promises w !! p.
Proof.
  unfold settle. destruct (decide (p = q)) as [->|Hne].
  - destruct (promises w !! q) as [[| |]|] eqn:E; simpl; try (rewrite E; reflexivity).
    apply list_lookup_insert_eq. eapply lookup_lt_Some; eauto.
  - destruct (promises w !! q) as [[| |]|] eqn:E; simpl; try reflexivity.
    apply list_lookup_insert_ne. congruence.
Qed.

(** ** Steps and runs *)

Section PollerFacts.

Variable decorateStatus_ : Value -> Value.

Lemma view_emit_terminal (ev : string) (args : list Value) (w : World) :
  wf w -> ev = "complete" \/ ev = "error" ->
  op (emit ev args w) = op w
  /\ view (emit ev args w)
     = mkView (completeListeners (op w)) (hasActiveListeners (op w))
              (inflight w) (timers w) (fetches w) true.
Proof.
  intros Hw Hev.
  assert (Hne : ev <> "newListener" /\ ev <> "removeListener")
    by (destruct Hev; subst; split; discriminate).
  destruct (emit_plain ev args w) as (E1 & E2 & E3 & pre & E4 & Hpre).
  { apply (wf_other w Hw); tauto. }
  split; [assumption|].
  unfold view, fetches, terminal. rewrite E1, E2, E3, E4.
  destruct Hev; subst ev; destruct Hpre; subst pre; reflexivity.
Qed.

Lemma poll_response_op (err : Value) (resp : gmap string Value) (w : World) :
  wf w -> op (poll_response decorateStatus_ err resp w) = op w.
Proof.
  intros Hw. unfold poll_response. repeat case_match.
  - apply view_emit_terminal; auto.
  - reflexivity.
  - apply view_emit_terminal; auto.
Qed.

Lemma view_poll_response (err : Value) (resp : gmap string Value) (w : World) :
  wf w ->
  view (poll_response decorateStatus_ err resp w)
  = if truthy err || truthy (prop resp "error") || truthy (prop resp "done")
    then mkView (completeListeners (op w)) (hasActiveListeners (op w))
                (inflight w) (timers w) (fetches w) true
    else mkView (completeListeners (op w)) (hasActiveListeners (op w))
                (inflight w) (timers w ++ [500]) (fetches w) (terminal w).
Proof.
  intros Hw. unfold poll_response.
  destruct (truthy err || truthy (prop resp "error")) eqn:E1; simpl.
  - apply view_emit_terminal; auto.
  - destruct (truthy (prop resp "done")) eqn:E2; simpl.
    + apply view_emit_terminal; auto.
    + reflexivity.
Qed.

Lemma step_wf (a : Action) (w w' : World) :
  wf w -> step decorateStatus_ a w = Some w' -> wf w'.
Proof.
  intros Hw H. destruct a; unfold step in H.
  - injection H as <-. apply on_wf; auto. 
  - injection H as <-. apply removeListener_wf; auto.
  - apply (inj Some) in H. subst w'. apply promise_wf; auto.
  - destruct (inflight w) as [|n]; [discriminate|]. injection H as <-.
    set (w1 := mkWorld (op w) n (timers w) (promises w) (effects w)).
    assert (Hw1 : wf w1) by (eapply wf_op; [|exact Hw]; reflexivity).
    eapply wf_op; [|exact Hw1]. apply poll_response_op; assumption.
  - destruct (timers w) as [|d ts]; [discriminate|]. injection H as <-.
    eapply wf_op; [|exact Hw]. unfold startPolling_. case_match; reflexivity.
Qed.

Lemma step_vstep (a : Action) (w w' : World) :
  wf w -> step decorateStatus_ a w = Some w' -> vstep a (view w) (view w').
Proof.
  intros Hw H. destruct a; unfold step in H.
  - injection H as <-. rewrite view_on by assumption. constructor.
  - injection H as <-.
    destruct (remove_last (User id) (listeners w ev)) as [ls'|] eqn:E.
    + rewrite (view_removeListener ev (User id) ls') by auto. apply vs_unsubscribe.
    + rewrite removeListener_absent by assumption. apply vs_unsubscribe_absent.
  - apply (inj Some) in H. subst w'. rewrite view_promise by assumption. constructor.
  - destruct (inflight w) as [|n] eqn:En; [discriminate|]. injection H as <-.
    set (w1 := mkWorld (op w) n (timers w) (promises w) (effects w)).
    assert (Hw1 : wf w1) by (eapply wf_op; [|exact Hw]; reflexivity).
    rewrite view_poll_response by assumption.
    destruct (truthy err || truthy (prop resp "error") || truthy (prop resp "done"))
      eqn:Et.
    + apply (vs_respond_terminal err resp (view w) n); auto.
    + apply (vs_respond_again err resp (view w) n); auto.
  - destruct (timers w) as [|d ts] eqn:Et; [discriminate|]. injection H as <-.
    rewrite view_startPolling. simpl.
    destruct (hasActiveListeners (op w)) eqn:Ef.
    + apply (vs_tick_active (view w) d ts); auto.
    + pose proof (vs_tick_idle (view w) d ts Et Ef) as V.
      unfold view in V |- *. simpl in V |- *. rewrite Ef in V |- *. exact V.
Qed.

Lemma run_wf (t : list Action) (w w' : World) :
  wf w -> run decorateStatus_ t w = Some w' -> wf w'.
Proof.
  revert w. induction t as [|a t IH]; intros w Hw H; simpl in H.
  - injection H as <-. assumption.
  - destruct (step decorateStatus_ a w) as [w1|] eqn:E; [|discriminate].
    eapply IH; [|exact H]. eapply step_wf; eauto.
Qed.

Lemma guarded_forallb (f : Action -> bool) (t : list Action) (w : World) :
  forallb f t = true -> guarded decorateStatus_ (fun a _ => f a) t w = true.
Proof.
  revert w. induction t as [|a t IH]; intros w H; simpl in *.
  - reflexivity.
  - apply andb_prop in H as [H1 H2]. rewrite H1. simpl.
    destruct (step decorateStatus_ a w); auto.
Qed.

Lemma guarded_any (t : list Action) (w : World) :
  guarded decorateStatus_ (fun _ _ => true) t w = true.
Proof.
  apply (guarded_forallb (fun _ => true)).
  induction t; simpl; auto.
Qed.

Lemma run_guarded_invariant (allowed : Action -> World -> bool) (P : View -> Prop) :
  (forall a w v', allowed a w = true -> wf w -> P (view w) ->
                  vstep a (view w) v' -> P v') ->
  forall t w w', wf w -> guarded decorateStatus_ allowed t w = true -> P (view w) ->
                 run decorateStatus_ t w = Some w' -> P (view w').
Proof.
  intros Hstep t. induction t as [|a t IH]; intros w w' Hw Hg HP Hrun; simpl in *.
  - injection Hrun as <-. assumption.
  - apply andb_prop in Hg as [Ha Hg].
    destruct (step decorateStatus_ a w) as [w1|] eqn:E; [|discriminate].
    apply (IH w1 w'); auto.
    + eapply step_wf; eauto.
    + eapply Hstep; eauto. eapply step_vstep; eauto.
Qed.

Lemma run_app (t1 t2 : list Action) (w : World) :
  run decorateStatus_ (t1 ++ t2) w
  = match run decorateStatus_ t1 w with
    | Some w1 => run decorateStatus_ t2 w1
    | None => None
    end.
Proof.
  revert w. induction t1 as [|a t1 IH]; intros w; simpl.
  - reflexivity.
  - destruct (step decorateStatus_ a w); auto.
Qed.

End PollerFacts.

(** ** Properties of the listener-driven poller *)

Section PollerProperties.

Variable decorateStatus_ : Value -> Value.

Lemma alive_step (a : Action) (v v' : View) : alive v -> vstep a v v' -> alive v'.
Proof.
  unfold alive. intros K H. vstep_cases H; intros; try discriminate;
    try rewrite length_app; simpl; try lia; auto.
Qed.

Lemma run_alive (t : list Action) (w w' : World) :
  wf w -> alive (view w) -> run decorateStatus_ t w = Some w' -> alive (view w').
Proof.
  intros Hw A Hrun.
  apply (run_guarded_invariant decorateStatus_ (fun _ _ => true) alive)
    with (t := t) (w := w); auto.
  - intros a w1 v' _ _ K H. eapply alive_step; eauto.
  - apply guarded_any.
Qed.

Lemma inert_step (a : Action) (v v' : View) :
  negb (is_complete_subscription a) = true -> inert v -> vstep a v v' -> inert v'.
Proof.
  unfold inert. intros Ha (F & N & I & T) H.
  vstep_cases H; try discriminate; try congruence; auto.
Qed.

(** C2. On every handle reached from construction the polling flag
    [hasActiveListeners] is set exactly when the count of registered
    ['complete'] listeners is positive, that count is the number of listeners
    in the emitter's registry, and while no terminal event has fired a
    positive count comes with a poll cycle in flight or scheduled; a run
    without a ['complete'] subscription sends no status fetch. *)
Theorem polling_follows_listener_count (nm : Value) (t : list Action) (w : World) :
  run decorateStatus_ t (new_Operation nm) = Some w ->
  (hasActiveListeners (op w) = true <-> 0 < completeListeners (op w))
  /\ completeListeners (op w) = Z.of_nat (length (listeners w "complete"))
  /\ (terminal w = false -> 0 < completeListeners (op w) -> (1 <= pending w)%nat)
  /\ (no_complete_subscription t = true -> fetches w = 0%nat).
Proof.
  intros Hrun.
  pose proof (new_Operation_wf nm) as Hw0.
  pose proof (run_wf decorateStatus_ t _ _ Hw0 Hrun) as Hw.
  split; [apply (wf_flag w Hw)|]. split; [apply (wf_count w Hw)|]. split.
  - intros Ht Hc.
    assert (K : alive (view w)).
    { apply (run_guarded_invariant decorateStatus_ (fun _ _ => true) alive)
        with (t := t) (w := new_Operation nm); auto.
      - intros a w1 v' _ _ K H. eapply alive_step; eauto.
      - apply guarded_any.
      - rewrite view_new_Operation. unfold alive. simpl. discriminate. }
    apply K; [exact Ht|]. apply (wf_flag w Hw). exact Hc.
  - intros Hq.
    assert (L : inert (view w)).
    { apply (run_guarded_invariant decorateStatus_
               (fun a _ => negb (is_complete_subscription a)) inert)
        with (t := t) (w := new_Operation nm); auto.
      - intros a w1 v' Ha _ L H. eapply inert_step; eauto.
      - apply guarded_forallb. exact Hq.
      - rewrite view_new_Operation. unfold inert. simpl. auto. }
    apply L.
Qed.

Lemma one_loop_strict_step (a : Action) (v v' : View) :
  is_subscription a = true -> one_loop_strict v -> vstep a v v' -> one_loop_strict v'.
Proof.
  unfold one_loop_strict. intros Ha J H.
  vstep_cases H; try discriminate; try rewrite length_app; simpl;
    destruct J as [[F P]|[F P]]; try congruence; try lia;
    try (left; split; [congruence | lia]);
    try (right; split; [congruence | lia]).
Qed.

Lemma one_loop_step (a : Action) (w : World) (v' : View) :
  negb (is_complete_subscription a) || hasActiveListeners (op w)
    || (pending w =? 0)%nat = true ->
  one_loop (view w) -> vstep a (view w) v' -> one_loop v'.
Proof.
  unfold one_loop, pending. intros Ha J H.
  vstep_cases H; try rewrite length_app; simpl; try lia;
    repeat match goal with
           | E : _ || _ = true |- _ => apply orb_prop in E as [E|E]
           | E : (_ =? _)%nat = true |- _ => apply Nat.eqb_eq in E
           end; try discriminate; try congruence; try lia.
Qed.

(** C6. In every run made of subscriptions (with the transport's answers and
    the timers in between) at most one poll cycle is in flight or scheduled
    at any time (a prefix of such a run is such a run), and a further
    ['complete'] subscriber on a handle whose listeners are active adds one
    to the shared counter and sends nothing. *)
Theorem one_poll_loop_for_subscriptions (nm : Value) (t : list Action) (w : World) :
  only_subscriptions t = true ->
  run decorateStatus_ t (new_Operation nm) = Some w ->
  (pending w <= 1)%nat
  /\ forall id,
       hasActiveListeners (op w) = true ->
       completeListeners (op (on "complete" (User id) w)) = completeListeners (op w) + 1
       /\ hasActiveListeners (op (on "complete" (User id) w)) = true
       /\ fetches (on "complete" (User id) w) = fetches w
       /\ inflight (on "complete" (User id) w) = inflight w
       /\ timers (on "complete" (User id) w) = timers w.
Proof.
  intros Hs Hrun.
  pose proof (new_Operation_wf nm) as Hw0.
  pose proof (run_wf decorateStatus_ t _ _ Hw0 Hrun) as Hw.
  split.
  - assert (J : one_loop_strict (view w)).
    { apply (run_guarded_invariant decorateStatus_ (fun a _ => is_subscription a)
               one_loop_strict) with (t := t) (w := new_Operation nm); auto.
      - intros a w1 v' Ha _ J H. eapply one_loop_strict_step; eauto.
      - apply guarded_forallb. exact Hs.
      - rewrite view_new_Operation. left. simpl. auto. }
    unfold pending. destruct J as [[_ P]|[_ P]]; simpl in P; lia.
  - intros id Hf.
    pose proof (view_on "complete" (User id) w Hw) as Hv.
    remember (on "complete" (User id) w) as w2 eqn:E2. clear E2.
    unfold view_subscribe in Hv. simpl in Hv. rewrite Hf in Hv.
    unfold view in Hv. injection Hv as -> -> -> -> -> _. auto.
Qed.

Lemma quiet_run (t : list Action) (w w' : World) :
  wf w -> hasActiveListeners (op w) = false ->
  no_complete_subscription t = true ->
  run decorateStatus_ t w = Some w' ->
  hasActiveListeners (op w') = false
  /\ fetches w' = fetches w
  /\ (count_responses t + inflight w' = inflight w)%nat
  /\ (pending w' <= pending w)%nat.
Proof.
  revert w. induction t as [|a t IH]; intros w Hw Hf Hq Hrun; simpl in *.
  - injection Hrun as <-. auto.
  - apply andb_prop in Hq as [Ha Hq].
    destruct (step decorateStatus_ a w) as [w1|] eqn:E; [|discriminate].
    pose proof (step_wf decorateStatus_ a w w1 Hw E) as Hw1.
    pose proof (step_vstep decorateStatus_ a w w1 Hw E) as V.
    assert (S1 : hasActiveListeners (op w1) = false
                 /\ fetches w1 = fetches w
                 /\ ((if is_response a then 1 else 0) + inflight w1 = inflight w)%nat
                 /\ (pending w1 <= pending w)%nat).
    { unfold pending.
      remember (view w1) as v1 eqn:Ev1.
      assert (Hv1 : v_flag v1 = hasActiveListeners (op w1)
                    /\ v_fetches v1 = fetches w1 /\ v_inflight v1 = inflight w1
                    /\ v_timers v1 = timers w1) by (subst v1; simpl; auto).
      destruct Hv1 as (<- & <- & <- & <-). clear Ev1.
      vstep_cases V; try discriminate; try rewrite length_app; simpl;
        repeat split; try congruence; try lia;
        simplify_eq; simpl; lia. }
    destruct S1 as (F1 & N1 & I1 & P1).
    destruct (IH w1 Hw1 F1 Hq Hrun) as (F2 & N2 & I2 & P2).
    repeat split; try congruence; try lia.
    destruct (is_response a); lia.
Qed.

(** C3, as amended. Once the last ['complete'] subscriber has unsubscribed,
    and for as long as nobody subscribes again, no status fetch is sent at
    all: the answers still to come are those of the requests already in
    flight, a timer already set fires into [startPolling_], which returns at
    its first test, and the number of pending cycles never grows.  In a run
    in which no subscriber joined an idle handle with a cycle still pending,
    at most one cycle is pending at the unsubscribe, so that at most one
    answer can still come. *)
Theorem no_fetch_after_last_unsubscribe
    (nm : Value) (t1 t2 : list Action) (w w' : World) :
  run decorateStatus_ t1 (new_Operation nm) = Some w ->
  hasActiveListeners (op w) = false ->
  no_complete_subscription t2 = true ->
  run decorateStatus_ t2 w = Some w' ->
  fetches w' = fetches w
  /\ (count_responses t2 + inflight w' = inflight w)%nat
  /\ (pending w' <= pending w)%nat
  /\ hasActiveListeners (op w') = false
  /\ startPolling_ w' = w'
  /\ (orderly decorateStatus_ t1 (new_Operation nm) = true ->
      (pending w <= 1)%nat /\ (count_responses t2 <= 1)%nat).
Proof.
  intros Hrun1 Hf Hq Hrun2.
  pose proof (new_Operation_wf nm) as Hw0.
  pose proof (run_wf decorateStatus_ t1 _ _ Hw0 Hrun1) as Hw.
  destruct (quiet_run t2 w w' Hw Hf Hq Hrun2) as (F & N & I & P).
  split; [exact N|]. split; [exact I|]. split; [exact P|]. split; [exact F|].
  split; [unfold startPolling_; rewrite F; reflexivity|].
  intros Ho.
  assert (J : one_loop (view w)).
  { apply (run_guarded_invariant decorateStatus_ _ one_loop)
      with (t := t1) (w := new_Operation nm) (3 := Ho); auto.
    - intros a w1 v' Ha _ J H. eapply one_loop_step; eauto.
    - rewrite view_new_Operation. unfold one_loop. simpl. lia. }
  unfold one_loop in J. simpl in J. unfold pending. lia.
Qed.

Lemma at_rest_step (n : nat) (a : Action) (w : World) (v' : View) :
  negb (is_complete_subscription a) || hasActiveListeners (op w) = true ->
  at_rest n (view w) -> vstep a (view w) v' -> at_rest n v'.
Proof.
  unfold at_rest. intros Ha (I & T & N) H.
  vstep_cases H; try discriminate; try congruence; auto.
Qed.

(** C1, as amended. In a run in which no subscriber joined an idle handle
    with a cycle still pending, the answer that makes the poll cycle emit
    ['complete'] or ['error'] leaves no poll cycle pending, and from then on
    no status fetch is sent in any later run in which every ['complete']
    subscriber registers while the handle still has active listeners.  Once
    the handle has no active listeners left, the next ['complete']
    subscription sends a status fetch again. *)
Theorem no_fetch_after_terminal_while_subscribed
    (nm : Value) (t1 t2 : list Action) (w0 w w' : World)
    (err : Value) (resp : gmap string Value) :
  orderly decorateStatus_ t1 (new_Operation nm) = true ->
  run decorateStatus_ t1 (new_Operation nm) = Some w0 ->
  truthy err || truthy (prop resp "error") || truthy (prop resp "done") = true ->
  step decorateStatus_ (Respond err resp) w0 = Some w ->
  stays_subscribed decorateStatus_ t2 w = true ->
  run decorateStatus_ t2 w = Some w' ->
  (terminal w = true /\ pending w = 0%nat)
  /\ (fetches w' = fetches w /\ pending w' = 0%nat /\ terminal w' = true)
  /\ (hasActiveListeners (op w') = false ->
      forall id,
        fetches (on "complete" (User id) w') = S (fetches w')
        /\ pending (on "complete" (User id) w') = 1%nat).
Proof.
  intros Ho Hrun1 Ht Hstep Hs Hrun2.
  pose proof (new_Operation_wf nm) as Hnew.
  pose proof (run_wf decorateStatus_ t1 _ _ Hnew Hrun1) as Hw0.
  pose proof (step_wf decorateStatus_ _ _ _ Hw0 Hstep) as Hw.
  pose proof (run_wf decorateStatus_ t2 _ _ Hw Hrun2) as Hw'.
  assert (J : one_loop (view w0)).
  { apply (run_guarded_invariant decorateStatus_ _ one_loop)
      with (t := t1) (w := new_Operation nm) (3 := Ho); auto.
    - intros a w1 v' Ha _ J H. eapply one_loop_step; eauto.
    - rewrite view_new_Operation. unfold one_loop. simpl. lia. }
  unfold one_loop in J. simpl in J.
  assert (T : terminal w = true /\ inflight w = 0%nat /\ timers w = []).
  { unfold step in Hstep. destruct (inflight w0) as [|n] eqn:En; [discriminate|].
    apply (inj Some) in Hstep.
    set (w1 := mkWorld (op w0) n (timers w0) (promises w0) (effects w0)) in *.
    assert (Hw1 : wf w1) by (eapply wf_op; [|exact Hw0]; reflexivity).
    pose proof (view_poll_response decorateStatus_ err resp w1 Hw1) as V.
    rewrite Ht, Hstep in V. unfold view in V. simpl in V.
    injection V as _ _ VI VT VF VM.
    assert (Hn : n = 0%nat) by lia. rewrite Hn in VI.
    assert (HT : timers w0 = [])
      by (destruct (timers w0); [reflexivity | simpl in J; lia]).
    rewrite HT in VT. auto. }
  destruct T as (Tm & I0 & T0).
  assert (R : at_rest (fetches w) (view w') /\ v_terminal (view w') = true).
  { apply (run_guarded_invariant decorateStatus_ _
             (fun v => at_rest (fetches w) v /\ v_terminal v = true))
      with (t := t2) (w := w) (3 := Hs); auto.
    - intros a w1 v' Ha _ [R T] H. split; [eapply at_rest_step; eauto|].
      clear R. vstep_cases H; auto.
    - unfold at_rest. simpl. auto. }
  destruct R as [(I & T & N) Tm']. simpl in I, T, N, Tm'.
  split; [|split].
  - unfold pending. rewrite I0, T0. auto.
  - unfold pending. rewrite I, T. auto.
  - intros Hf id.
    pose proof (view_on "complete" (User id) w' Hw') as Hv.
    remember (on "complete" (User id) w') as w2 eqn:E2. clear E2.
    unfold view_subscribe in Hv. simpl in Hv. rewrite Hf in Hv.
    unfold view in Hv. injection Hv as _ _ HI HT HF _.
    unfold pending. rewrite HI, HT, HF, I, T. auto.
Qed.

End PollerProperties.

(** ** One poll cycle *)

Section PollCycle.

Variable decorateStatus_ : Value -> Value.

Lemma emitted_emit (ev ev' : string) (args : list Value) (w : World) :
  wf w -> ev = "complete" \/ ev = "error" ->
  op (emit ev args w) = op w
  /\ inflight (emit ev args w) = inflight w
  /\ timers (emit ev args w) = timers w
  /\ fetches (emit ev args w) = fetches w
  /\ emitted ev' (emit ev args w)
     = if String.eqb ev ev' then args :: emitted ev' w else emitted ev' w.
Proof.
  intros Hw Hev.
  assert (Hne : ev <> "newListener" /\ ev <> "removeListener")
    by (destruct Hev; subst; split; discriminate).
  destruct (emit_plain ev args w) as (E1 & E2 & E3 & pre & E4 & Hpre).
  { apply (wf_other w Hw); tauto. }
  repeat split; auto; unfold fetches, emitted; rewrite E4;
    destruct Hpre; subst pre; simpl; try reflexivity;
    destruct (String.eqb ev ev'); reflexivity.
Qed.

(** What the callback of [startPolling_] does, case by case. *)
Lemma poll_response_cases (err : Value) (resp : gmap string Value) (w : World) :
  wf w ->
  op (poll_response decorateStatus_ err resp w) = op w
  /\ inflight (poll_response decorateStatus_ err resp w) = inflight w
  /\ fetches (poll_response decorateStatus_ err resp w) = fetches w
  /\ if truthy err || truthy (prop resp "error") then
       timers (poll_response decorateStatus_ err resp w) = timers w
       /\ emitted "error" (poll_response decorateStatus_ err resp w)
          = [js_or err (decorateStatus_ (prop resp "result"))] :: emitted "error" w
       /\ emitted "complete" (poll_response decorateStatus_ err resp w)
          = emitted "complete" w
     else if truthy (prop resp "done") then
       timers (poll_response decorateStatus_ err resp w) = timers w
       /\ emitted "error" (poll_response decorateStatus_ err resp w)
          = emitted "error" w
       /\ emitted "complete" (poll_response decorateStatus_ err resp w)
          = [VObj resp] :: emitted "complete" w
     else
       timers (poll_response decorateStatus_ err resp w) = timers w ++ [500]
       /\ emitted "error" (poll_response decorateStatus_ err resp w)
          = emitted "error" w
       /\ emitted "complete" (poll_response decorateStatus_ err resp w)
          = emitted "complete" w
       /\ effects (poll_response decorateStatus_ err resp w)
          = SetTimeout 500 :: effects w.
Proof.
  intros Hw. unfold poll_response.
  destruct (truthy err || truthy (prop resp "error")).
  - pose proof (emitted_emit "error" "error"
                  [js_or err (decorateStatus_ (prop resp "result"))] w Hw) as A.
    pose proof (emitted_emit "error" "complete"
                  [js_or err (decorateStatus_ (prop resp "result"))] w Hw) as B.
    simpl in A, B. intuition.
  - destruct (truthy (prop resp "done")); simpl.
    + pose proof (emitted_emit "complete" "error" [VObj resp] w Hw) as A.
      pose proof (emitted_emit "complete" "complete" [VObj resp] w Hw) as B.
      simpl in A, B. intuition.
    + repeat split; reflexivity.
Qed.

(** C4, as amended. When the transport reports an error the ['error'] event
    carries that error, whatever the payload's [error] field says; when only
    the payload's [error] field is set it carries what the decoration hook
    returns for the payload's [result] field, not for the payload or its
    [error] field.  In both cases nothing else is emitted and no timer is
    set. *)
Theorem transport_error_takes_precedence
    (nm : Value) (t : list Action) (w w' : World)
    (err : Value) (resp : gmap string Value) :
  run decorateStatus_ t (new_Operation nm) = Some w ->
  step decorateStatus_ (Respond err resp) w = Some w' ->
  (truthy err = true ->
     emitted "error" w' = [err] :: emitted "error" w
     /\ emitted "complete" w' = emitted "complete" w /\ timers w' = timers w)
  /\ (truthy err = false -> truthy (prop resp "error") = true ->
        emitted "error" w' = [decorateStatus_ (prop resp "result")] :: emitted "error" w
        /\ emitted "complete" w' = emitted "complete" w /\ timers w' = timers w).
Proof.
  intros Hrun Hstep.
  pose proof (run_wf decorateStatus_ t _ _ (new_Operation_wf nm) Hrun) as Hw.
  unfold step in Hstep. destruct (inflight w) as [|n]; [discriminate|].
  apply (inj Some) in Hstep. subst w'.
  set (w1 := mkWorld (op w) n (timers w) (promises w) (effects w)).
  assert (Hw1 : wf w1) by (eapply wf_op; [|exact Hw]; reflexivity).
  destruct (poll_response_cases err resp w1 Hw1) as (_ & _ & _ & C).
  split.
  - intros He. rewrite He in C. simpl in C. unfold js_or in C. rewrite He in C.
    destruct C as (C1 & C2 & C3). auto.
  - intros He Hl. rewrite He, Hl in C. simpl in C. unfold js_or in C.
    rewrite He in C. destruct C as (C1 & C2 & C3). auto.
Qed.

(** C5. On a handle with an active subscriber an error-free answer that is
    not done sets exactly one timer, of 500, and emits nothing; when that
    timer fires exactly one more status fetch is sent.  An error-free answer
    that is done emits ['complete'] once, with the whole response payload,
    and sets no timer.  In the run where the first answer is [{done: false}]
    and the second [{done: true, response: {value: X}}], two fetches are sent
    and ['complete'] is emitted once, with a payload whose [response.value]
    is [X]. *)
Theorem fixed_interval_poll_until_done
    (nm : Value) (t : list Action) (w w' : World)
    (err : Value) (resp : gmap string Value) :
  run decorateStatus_ t (new_Operation nm) = Some w ->
  hasActiveListeners (op w) = true ->
  truthy err = false -> truthy (prop resp "error") = false ->
  step decorateStatus_ (Respond err resp) w = Some w' ->
  (truthy (prop resp "done") = false ->
     effects w' = SetTimeout 500 :: effects w
     /\ timers w' = timers w ++ [500]
     /\ fetches w' = fetches w
     /\ emitted "complete" w' = emitted "complete" w
     /\ emitted "error" w' = emitted "error" w
     /\ exists w'', step decorateStatus_ Tick w' = Some w''
                    /\ fetches w'' = S (fetches w)
                    /\ length (timers w'') = length (timers w))
  /\ (truthy (prop resp "done") = true ->
        emitted "complete" w' = [VObj resp] :: emitted "complete" w
        /\ emitted "error" w' = emitted "error" w
        /\ timers w' = timers w
        /\ fetches w' = fetches w)
  /\ (forall X : Value,
        fetches <$> run decorateStatus_ (scenarioA X) (new_Operation nm) = Some 2%nat
        /\ emitted "complete" <$> run decorateStatus_ (scenarioA X) (new_Operation nm)
           = Some [[VObj {[ "done" := VBool true;
                            "response" := VObj {[ "value" := X ]} ]}]]
        /\ (fun w => member (member (hd VUndefined (hd [] (emitted "complete" w)))
                                    "response") "value")
             <$> run decorateStatus_ (scenarioA X) (new_Operation nm) = Some X
        /\ emitted "error" <$> run decorateStatus_ (scenarioA X) (new_Operation nm)
           = Some []).
Proof.
  intros Hrun Hf He Hl Hstep.
  pose proof (run_wf decorateStatus_ t _ _ (new_Operation_wf nm) Hrun) as Hw.
  unfold step in Hstep. destruct (inflight w) as [|n] eqn:En; [discriminate|].
  apply (inj Some) in Hstep. subst w'.
  set (w1 := mkWorld (op w) n (timers w) (promises w) (effects w)).
  assert (Hw1 : wf w1) by (eapply wf_op; [|exact Hw]; reflexivity).
  destruct (poll_response_cases err resp w1 Hw1) as (O & I & F & C).
  rewrite He, Hl in C. simpl in C.
  split; [|split].
  - intros Hd. rewrite Hd in C. destruct C as (C1 & C2 & C3 & C4).
    repeat split; auto.
    unfold step. rewrite C1. simpl.
    destruct (timers w ++ [500]) as [|d ts] eqn:Et.
    { destruct (timers w); discriminate. }
    eexists. split; [reflexivity|].
    assert (Hlen : length (d :: ts) = S (length (timers w)))
      by (rewrite <- Et, length_app; simpl; lia).
    simpl in Hlen.
    unfold startPolling_. simpl. rewrite O. simpl. rewrite Hf. simpl.
    split; [|lia].
    unfold fetches, get. simpl. f_equal. exact F.
  - intros Hd. rewrite Hd in C. destruct C as (C1 & C2 & C3). auto.
  - intros X. vm_compute. auto.
Qed.

(** C8, as amended. Two answers that agree on [done], [error] and [result]
    lead the poll cycle to the same choice among setting a timer, emitting
    ['complete'] and emitting ['error'], and to the same ['error'] value;
    ['complete'] carries the whole payload of the answer it was emitted
    for. *)
Theorem poll_cycle_reads_done_error_result
    (nm : Value) (t : list Action) (w w1 w2 : World)
    (err : Value) (r1 r2 : gmap string Value) :
  run decorateStatus_ t (new_Operation nm) = Some w ->
  prop r1 "done" = prop r2 "done" ->
  prop r1 "error" = prop r2 "error" ->
  prop r1 "result" = prop r2 "result" ->
  step decorateStatus_ (Respond err r1) w = Some w1 ->
  step decorateStatus_ (Respond err r2) w = Some w2 ->
  op w1 = op w2 /\ inflight w1 = inflight w2 /\ timers w1 = timers w2
  /\ fetches w1 = fetches w2
  /\ emitted "error" w1 = emitted "error" w2
  /\ ((emitted "complete" w1 = emitted "complete" w
       /\ emitted "complete" w2 = emitted "complete" w)
      \/ (emitted "complete" w1 = [VObj r1] :: emitted "complete" w
          /\ emitted "complete" w2 = [VObj r2] :: emitted "complete" w)).
Proof.
  intros Hrun Hd He Hr H1 H2.
  pose proof (run_wf decorateStatus_ t _ _ (new_Operation_wf nm) Hrun) as Hw.
  unfold step in H1, H2. destruct (inflight w) as [|n] eqn:En; [discriminate|].
  apply (inj Some) in H1. apply (inj Some) in H2. subst w1 w2.
  set (w0 := mkWorld (op w) n (timers w) (promises w) (effects w)).
  assert (Hw0 : wf w0) by (eapply wf_op; [|exact Hw]; reflexivity).
  destruct (poll_response_cases err r1 w0 Hw0) as (O1 & I1 & F1 & C1).
  destruct (poll_response_cases err r2 w0 Hw0) as (O2 & I2 & F2 & C2).
  rewrite <- Hd, <- He, <- Hr in C2.
  rewrite O1, O2, I1, I2, F1, F2.
  destruct (truthy err || truthy (prop r1 "error")).
  - destruct C1 as (A1 & B1 & D1), C2 as (A2 & B2 & D2).
    rewrite A1, A2, B1, B2, D1, D2. repeat split; auto.
  - destruct (truthy (prop r1 "done")).
    + destruct C1 as (A1 & B1 & D1), C2 as (A2 & B2 & D2).
      rewrite A1, A2, B1, B2, D1, D2. repeat split; auto.
    + destruct C1 as (A1 & B1 & D1 & _), C2 as (A2 & B2 & D2 & _).
      rewrite A1, A2, B1, B2, D1, D2. repeat split; auto.
Qed.

End PollCycle.

(** ** The promise adapter *)

Section PromiseFacts.

Variable decorateStatus_ : Value -> Value.

(** Running the ['complete'] listeners settles a pending promise whose
    resolver is among them, and leaves a promise alone once it is settled. *)
Lemma foldl_call_resolves (p : nat) (v : Value) (ls : list Listener) (w : World) :
  Forall (fun l => is_complete_listener l = true) ls ->
  (promises w !! p = Some (Resolved (VArr [v])) ->
   promises (foldl (fun acc l => call l [v] acc) w ls) !! p
   = Some (Resolved (VArr [v])))
  /\ (promises w !! p = Some Pending -> PromiseResolve p ∈ ls ->
      promises (foldl (fun acc l => call l [v] acc) w ls) !! p
      = Some (Resolved (VArr [v]))).
Proof.
  intros H. revert w. induction H as [|l ls Hl _ IH]; intros w; simpl.
  - split; [auto|]. intros _ Hin. inversion Hin.
  - destruct l; try discriminate; simpl.
    + destruct (IH w) as [A B]. split; [exact A|].
      intros HP Hin. apply elem_of_cons in Hin as [Hin|Hin]; [discriminate|auto].
    + destruct (IH (settle p0 (Resolved (VArr [v])) w)) as [A B].
      pose proof (settle_lookup p p0 (Resolved (VArr [v])) w) as S.
      split.
      * intros HR. apply A. rewrite S, HR. destruct (decide (p = p0)); reflexivity.
      * intros HP Hin. rewrite HP in S. destruct (decide (p = p0)) as [->|Hne].
        -- apply A. exact S.
        -- apply B; [exact S|].
           apply elem_of_cons in Hin as [Hin|Hin]; [congruence | assumption].
Qed.

Lemma foldl_call_rejects (p : nat) (v : Value) (ls : list Listener) (w : World) :
  Forall (fun l => is_error_listener l = true) ls ->
  (promises w !! p = Some (Rejected v) ->
   promises (foldl (fun acc l => call l [v] acc) w ls) !! p = Some (Rejected v))
  /\ (promises w !! p = Some Pending -> PromiseReject p ∈ ls ->
      promises (foldl (fun acc l => call l [v] acc) w ls) !! p = Some (Rejected v)).
Proof.
  intros H. revert w. induction H as [|l ls Hl _ IH]; intros w; simpl.
  - split; [auto|]. intros _ Hin. inversion Hin.
  - destruct l; try discriminate; simpl.
    + destruct (IH w) as [A B]. split; [exact A|].
      intros HP Hin. apply elem_of_cons in Hin as [Hin|Hin]; [discriminate|auto].
    + destruct (IH (settle p0 (Rejected v) w)) as [A B].
      pose proof (settle_lookup p p0 (Rejected v) w) as S.
      split.
      * intros HR. apply A. rewrite S, HR. destruct (decide (p = p0)); reflexivity.
      * intros HP Hin. rewrite HP in S. destruct (decide (p = p0)) as [->|Hne].
        -- apply A. exact S.
        -- apply B; [exact S|].
           apply elem_of_cons in Hin as [Hin|Hin]; [congruence | assumption].
Qed.

Lemma promises_emit (ev : string) (args : list Value) (w : World) :
  promises (emit ev args w)
  = promises (foldl (fun acc l => call l args acc)
                (record (Emit ev args (listeners w ev)) w) (listeners w ev)).
Proof.
  unfold emit. destruct (listeners w ev); [|reflexivity].
  destruct (String.eqb ev "error"); reflexivity.
Qed.

Lemma emit_complete_resolves (p : nat) (v : Value) (w : World) :
  tidy w -> armed p w ->
  promises (emit "complete" [v] w) !! p = Some (Resolved (VArr [v])).
Proof.
  intros [Tc _] (HP & Hc & _). rewrite promises_emit.
  apply (foldl_call_resolves p v); auto.
Qed.

Lemma emit_error_rejects (p : nat) (v : Value) (w : World) :
  tidy w -> armed p w ->
  promises (emit "error" [v] w) !! p = Some (Rejected v).
Proof.
  intros [_ Te] (HP & _ & He). rewrite promises_emit.
  apply (foldl_call_rejects p v); auto.
Qed.

Lemma same_op_tidy (w w' : World) : op w' = op w -> tidy w -> tidy w'.
Proof. intros Eo. unfold tidy, listeners. rewrite Eo. auto. Qed.

Lemma same_op_armed (p : nat) (w w' : World) :
  op w' = op w -> promises w' = promises w -> armed p w -> armed p w'.
Proof. intros Eo Ep. unfold armed, listeners. rewrite Eo, Ep. auto. Qed.

Lemma on_tidy (ev : string) (l : Listener) (w : World) :
  wf w ->
  (ev = "complete" -> is_complete_listener l = true) ->
  (ev = "error" -> is_error_listener l = true) ->
  tidy w -> tidy (on ev l w).
Proof.
  intros Hw Hc He [Tc Te].
  unfold tidy. rewrite !listeners_on by assumption. split.
  - destruct (decide (ev = "complete")) as [->|]; [apply Forall_snoc|]; auto.
  - destruct (decide (ev = "error")) as [->|]; [apply Forall_snoc|]; auto.
Qed.

Lemma on_armed (p : nat) (ev : string) (l : Listener) (w : World) :
  wf w -> armed p w -> armed p (on ev l w).
Proof.
  intros Hw (HP & Ic & Ie).
  unfold armed. rewrite !listeners_on, promises_on by assumption.
  repeat split; auto.
  - destruct (decide (ev = "complete")) as [->|]; [apply elem_of_app|]; auto.
  - destruct (decide (ev = "error")) as [->|]; [apply elem_of_app|]; auto.
Qed.

Lemma removeListener_tidy (ev : string) (id : nat) (w : World) :
  wf w -> tidy w -> tidy (removeListener ev (User id) w).
Proof.
  intros Hw [Tc Te].
  destruct (remove_last (User id) (listeners w ev)) as [ls'|] eqn:E.
  2: { rewrite removeListener_absent by assumption. unfold tidy. auto. }
  unfold tidy.
  rewrite !(listeners_removeListener ev _ (User id) ls') by auto. split.
  - destruct (decide (ev = "complete")) as [->|]; [|auto].
    eapply remove_last_Forall; eauto.
  - destruct (decide (ev = "error")) as [->|]; [|auto].
    eapply remove_last_Forall; eauto.
Qed.

Lemma removeListener_armed (p : nat) (ev : string) (id : nat) (w : World) :
  wf w -> armed p w -> armed p (removeListener ev (User id) w).
Proof.
  intros Hw (HP & Ic & Ie).
  destruct (remove_last (User id) (listeners w ev)) as [ls'|] eqn:E.
  2: { rewrite removeListener_absent by assumption. unfold armed. auto. }
  unfold armed.
  rewrite !(listeners_removeListener ev _ (User id) ls') by auto.
  rewrite promises_removeListener by auto.
  repeat split; auto.
  - destruct (decide (ev = "complete")) as [->|]; [|auto].
    eapply remove_last_elem; eauto. discriminate.
  - destruct (decide (ev = "error")) as [->|]; [|auto].
    eapply remove_last_elem; eauto. discriminate.
Qed.

Lemma promise_tidy (w : World) : wf w -> tidy w -> tidy (snd (promise w)).
Proof.
  intros Hw T. rewrite promise_unfold. simpl.
  assert (Hw0 : wf (with_promise w)) by (eapply wf_op; [|exact Hw]; reflexivity).
  assert (T0 : tidy (with_promise w)) by (eapply same_op_tidy; [|exact T]; reflexivity).
  apply on_tidy; try (intros; reflexivity || discriminate).
  - apply on_wf; auto. intros [|]; discriminate.
  - apply on_tidy; auto; intros; reflexivity || discriminate.
Qed.

Lemma promise_keeps_armed (p : nat) (w : World) :
  wf w -> armed p w -> armed p (snd (promise w)).
Proof.
  intros Hw A. rewrite promise_unfold. simpl.
  assert (Hw0 : wf (with_promise w)) by (eapply wf_op; [|exact Hw]; reflexivity).
  apply on_armed; [apply on_wf; auto; intros [|]; discriminate|].
  apply on_armed; [assumption|].
  destruct A as (HP & Ic & Ie). unfold armed. repeat split; auto.
  simpl. rewrite lookup_app_l; [assumption|]. eapply lookup_lt_Some; eauto.
Qed.

Lemma promise_armed (w : World) : wf w -> armed (fst (promise w)) (snd (promise w)).
Proof.
  intros Hw. rewrite promise_unfold. simpl.
  assert (Hw0 : wf (with_promise w)) by (eapply wf_op; [|exact Hw]; reflexivity).
  assert (Hw1 : wf (on "error" (PromiseReject (length (promises w))) (with_promise w)))
    by (apply on_wf; auto; intros [|]; discriminate).
  unfold armed. rewrite !listeners_on, !promises_on by assumption. simpl.
  repeat split.
  - rewrite lookup_app_r by lia. rewrite Nat.sub_diag. reflexivity.
  - apply elem_of_app. right. apply list_elem_of_singleton. reflexivity.
  - apply elem_of_app. right. apply list_elem_of_singleton. reflexivity.
Qed.

Lemma step_tidy (a : Action) (w w' : World) :
  wf w -> tidy w -> step decorateStatus_ a w = Some w' -> tidy w'.
Proof.
  intros Hw T H. destruct a; unfold step in H.
  - apply (inj Some) in H. subst w'. apply on_tidy; auto.
  - apply (inj Some) in H. subst w'. apply removeListener_tidy; auto.
  - apply (inj Some) in H. subst w'. apply promise_tidy; auto.
  - destruct (inflight w) as [|n]; [discriminate|]. apply (inj Some) in H. subst w'.
    set (w1 := mkWorld (op w) n (timers w) (promises w) (effects w)).
    assert (Hw1 : wf w1) by (eapply wf_op; [|exact Hw]; reflexivity).
    eapply same_op_tidy; [|exact T].
    rewrite (poll_response_op decorateStatus_ err resp w1 Hw1). reflexivity.
  - destruct (timers w) as [|d ts]; [discriminate|]. apply (inj Some) in H. subst w'.
    eapply same_op_tidy; [|exact T]. unfold startPolling_. case_match; reflexivity.
Qed.

Lemma run_tidy (t : list Action) (w w' : World) :
  wf w -> tidy w -> run decorateStatus_ t w = Some w' -> tidy w'.
Proof.
  revert w. induction t as [|a t IH]; intros w Hw T H; simpl in H.
  - injection H as <-. assumption.
  - destruct (step decorateStatus_ a w) as [w1|] eqn:E; [|discriminate].
    eapply IH; [| |exact H].
    + eapply step_wf; eauto.
    + eapply step_tidy; eauto.
Qed.

Lemma step_armed (p : nat) (a : Action) (w w' : World) :
  wf w -> armed p w -> no_terminal_answer [a] = true ->
  step decorateStatus_ a w = Some w' -> armed p w'.
Proof.
  intros Hw A Hn H. destruct a; unfold step in H.
  - apply (inj Some) in H. subst w'. apply on_armed; auto.
  - apply (inj Some) in H. subst w'. apply removeListener_armed; auto.
  - apply (inj Some) in H. subst w'. apply promise_keeps_armed; auto.
  - destruct (inflight w) as [|n]; [discriminate|]. apply (inj Some) in H. subst w'.
    simpl in Hn. rewrite andb_true_r in Hn. apply negb_true_iff in Hn.
    apply orb_false_elim in Hn as [Hn Hd].
    unfold poll_response. rewrite Hn, Hd. simpl.
    eapply same_op_armed; [| |exact A]; reflexivity.
  - destruct (timers w) as [|d ts]; [discriminate|]. apply (inj Some) in H. subst w'.
    eapply same_op_armed; [| |exact A]; unfold startPolling_; case_match; reflexivity.
Qed.

Lemma run_armed (p : nat) (t : list Action) (w w' : World) :
  wf w -> armed p w -> no_terminal_answer t = true ->
  run decorateStatus_ t w = Some w' -> armed p w'.
Proof.
  revert w. induction t as [|a t IH]; intros w Hw A Hn H; simpl in H.
  - injection H as <-. assumption.
  - destruct (step decorateStatus_ a w) as [w1|] eqn:E; [|discriminate].
    unfold no_terminal_answer in Hn. simpl in Hn. apply andb_prop in Hn as [Ha Hn].
    eapply IH; [| | exact Hn | exact H].
    + eapply step_wf; eauto.
    + eapply step_armed; eauto. simpl. rewrite Ha. reflexivity.
Qed.

Lemma new_Operation_tidy (nm : Value) : tidy (new_Operation nm).
Proof. rewrite new_Operation_eq. split; constructor. Qed.

(** C7, as amended. [promise] registers its two handlers through [on], so
    on any handle it moves the listener counter, the polling flag and the
    requests exactly as a caller's own ['complete'] subscription does, and
    on a new handle it sends the first status fetch.  From then on the
    handle stays active, and while no terminal event has fired a poll cycle
    is pending; the promise stays pending through answers that are
    error-free and not done.  The answer that makes the poll cycle emit
    ['error'] rejects the promise with the emitted value; the answer that
    makes it emit ['complete'] resolves it with the one-element array
    holding the emitted metadata, not with the metadata. *)
Theorem promise_settles_with_terminal_event
    (nm : Value) (t0 t : list Action) (w0 w w' : World)
    (err : Value) (resp : gmap string Value) (id : nat) :
  run decorateStatus_ t0 (new_Operation nm) = Some w0 ->
  no_terminal_answer t = true ->
  run decorateStatus_ t (snd (promise w0)) = Some w ->
  step decorateStatus_ (Respond err resp) w = Some w' ->
  view (snd (promise w0)) = view (on "complete" (User id) w0)
  /\ fetches (snd (promise (new_Operation nm))) = 1%nat
  /\ hasActiveListeners (op w) = true
  /\ (terminal w = false -> (1 <= pending w)%nat)
  /\ promises w !! fst (promise w0) = Some Pending
  /\ (truthy err || truthy (prop resp "error") = true ->
      emitted "error" w'
      = [js_or err (decorateStatus_ (prop resp "result"))] :: emitted "error" w
      /\ promises w' !! fst (promise w0)
         = Some (Rejected (js_or err (decorateStatus_ (prop resp "result")))))
  /\ (truthy err || truthy (prop resp "error") = false ->
      truthy (prop resp "done") = true ->
      emitted "complete" w' = [VObj resp] :: emitted "complete" w
      /\ promises w' !! fst (promise w0) = Some (Resolved (VArr [VObj resp]))).
Proof.
  intros Hrun0 Hn Hrun Hstep.
  pose proof (new_Operation_wf nm) as Hnew.
  pose proof (run_wf decorateStatus_ t0 _ _ Hnew Hrun0) as Hw0.
  pose proof (run_tidy t0 _ _ Hnew (new_Operation_tidy nm) Hrun0) as T0.
  pose proof (promise_wf w0 Hw0) as Hw1.
  pose proof (promise_tidy w0 Hw0 T0) as T1.
  pose proof (promise_armed w0 Hw0) as A1.
  pose proof (run_wf decorateStatus_ t _ _ Hw1 Hrun) as Hw.
  pose proof (run_tidy t _ _ Hw1 T1 Hrun) as T.
  pose proof (run_armed _ t _ _ Hw1 A1 Hn Hrun) as A.
  assert (Hflag : hasActiveListeners (op w) = true).
  { apply (wf_flag w Hw). rewrite (wf_count w Hw).
    destruct A as (_ & Ic & _). destruct (listeners w "complete"); simpl; [|lia].
    inversion Ic. }
  split; [|split; [|split; [|split; [|split; [|split]]]]].
  - rewrite view_promise, view_on by assumption. reflexivity.
  - rewrite (new_Operation_eq nm). reflexivity.
  - exact Hflag.
  - intros Ht.
    assert (K0 : alive (view w0)).
    { apply (run_alive decorateStatus_ t0 (new_Operation nm) w0); auto.
      rewrite view_new_Operation. unfold alive. simpl. discriminate. }
    assert (K1 : alive (view (snd (promise w0)))).
    { apply (run_alive decorateStatus_ [MakePromise] w0); auto. }
    pose proof (run_alive decorateStatus_ t _ _ Hw1 K1 Hrun) as K.
    apply K; assumption.
  - apply A.
  - intros He.
    unfold step in Hstep. destruct (inflight w) as [|n]; [discriminate|].
    apply (inj Some) in Hstep. subst w'.
    set (w1 := mkWorld (op w) n (timers w) (promises w) (effects w)).
    assert (Hwn : wf w1) by (eapply wf_op; [|exact Hw]; reflexivity).
    destruct (poll_response_cases decorateStatus_ err resp w1 Hwn) as (_ & _ & _ & C).
    rewrite He in C. split; [apply C|].
    unfold poll_response. rewrite He.
    apply emit_error_rejects.
    + eapply same_op_tidy; [|exact T]. reflexivity.
    + eapply same_op_armed; [| |exact A]; reflexivity.
  - intros He Hd.
    unfold step in Hstep. destruct (inflight w) as [|n]; [discriminate|].
    apply (inj Some) in Hstep. subst w'.
    set (w1 := mkWorld (op w) n (timers w) (promises w) (effects w)).
    assert (Hwn : wf w1) by (eapply wf_op; [|exact Hw]; reflexivity).
    destruct (poll_response_cases decorateStatus_ err resp w1 Hwn) as (_ & _ & _ & C).
    rewrite He, Hd in C. split; [apply C|].
    unfold poll_response. rewrite He, Hd. simpl.
    apply emit_complete_resolves.
    + eapply same_op_tidy; [|exact T]. reflexivity.
    + eapply same_op_armed; [| |exact A]; reflexivity.
Qed.

End PromiseFacts.

(** ** The parent client *)

(** C9. [operation] throws at once for every falsy name, in particular for
    an absent one and for the empty string, so that there is no handle and
    no event channel to deliver anything through; for every truthy name it
    returns the new handle, which has emitted neither ['error'] nor
    ['complete'] and has sent nothing. *)
Theorem operation_requires_name (nm : Value) :
  (truthy nm = false ->
     operation nm = inl (Error "A name must be specified for an operation."))
  /\ (truthy nm = true ->
        operation nm = inr (new_Operation nm)
        /\ name (op (new_Operation nm)) = nm
        /\ emitted "error" (new_Operation nm) = []
        /\ emitted "complete" (new_Operation nm) = []
        /\ fetches (new_Operation nm) = 0%nat)
  /\ operation VUndefined = inl (Error "A name must be specified for an operation.")
  /\ operation (VStr "") = inl (Error "A name must be specified for an operation.").
Proof.
  unfold operation. split; [|split; [|split]].
  - intros ->. reflexivity.
  - intros ->. rewrite new_Operation_eq. simpl. auto.
  - reflexivity.
  - reflexivity.
Qed.

Lemma indexOf_ge (c : ascii) (s : string) : -1 <= indexOf c s.
Proof.
  induction s as [|a s IH]; simpl.
  - lia.
  - destruct (Ascii.eqb a c); [lia|].
    destruct (indexOf c s <? 0) eqn:E; [lia|]. apply Z.ltb_ge in E. lia.
Qed.

(** C10. A name that contains a '/' is returned as it is, and, the rendered
    path of a function always containing a '/', formatting a formatted name
    changes nothing. *)
Theorem formatName_idempotent
    (functionPath : Value -> Value -> string -> string)
    (this : Functions) (pid reg : Value) (nm : string) :
  (forall p r n, indexOf "/"%char (functionPath p r n) > -1) ->
  (indexOf "/"%char nm > -1 -> _formatName functionPath this pid reg nm = nm)
  /\ _formatName functionPath this pid reg (_formatName functionPath this pid reg nm)
     = _formatName functionPath this pid reg nm.
Proof.
  intros Hpath.
  assert (Hfix : forall s, indexOf "/"%char s > -1 ->
                           _formatName functionPath this pid reg s = s).
  { intros s Hs. unfold _formatName.
    destruct (indexOf "/"%char s >? -1) eqn:E; [reflexivity|].
    rewrite Z.gtb_ltb in E. apply Z.ltb_ge in E. lia. }
  split; [apply Hfix|].
  apply Hfix. unfold _formatName.
  destruct (indexOf "/"%char nm >? -1) eqn:E.
  - rewrite Z.gtb_ltb in E. apply Z.ltb_lt in E. lia.
  - apply Hpath.
Qed.

(** ** The properties on sample runs *)

Example resubscription_starts_second_loop :
  pending (final_state sample_decorate
             [Subscribe "complete" 0%nat; Unsubscribe "complete" 0%nat;
              Subscribe "complete" 1%nat]
             (new_Operation (VStr "op"))) = 2%nat.
Proof. vm_compute. reflexivity. Qed.

Example logical_error_value_comes_from_result :
  emitted "error"
    (final_state sample_decorate
       [Subscribe "complete" 0%nat; Respond VNull answer_failed]
       (new_Operation (VStr "op")))
  = [[sample_decorate (prop answer_failed "result")]].
Proof. vm_compute. reflexivity. Qed.

(** C1, as stated, fails: after ['complete'] has fired, the last subscriber
    leaves and a new one registers, and a second status fetch is sent. *)
Lemma resubscription_after_terminal_fetches_again :
  ~ (forall (d : Value -> Value) (nm : Value) (t1 t2 : list Action) (w w' : World),
       run d t1 (new_Operation nm) = Some w ->
       terminal w = true ->
       forallb is_complete_listener_action t2 = true ->
       run d t2 w = Some w' ->
       fetches w' = fetches w).
Proof.
  intros H.
  pose (t1 := [Subscribe "complete" 0%nat; Respond VNull answer_done]).
  pose (t2 := [Unsubscribe "complete" 0%nat; Subscribe "complete" 1%nat]).
  pose (w := final_state sample_decorate t1 (new_Operation (VStr "op"))).
  pose (w' := final_state sample_decorate t2 w).
  assert (E : fetches w' = fetches w).
  { apply (H sample_decorate (VStr "op") t1 t2 w w'); vm_compute; reflexivity. }
  vm_compute in E. discriminate E.
Qed.

Lemma no_fetch_after_terminal_while_subscribed_witness :
  let t1 := [Subscribe "complete" 0%nat; Respond VNull answer_pending; Tick] in
  let t2 := [Subscribe "complete" 1%nat; Unsubscribe "complete" 0%nat;
             Unsubscribe "complete" 1%nat] in
  let w0 := final_state sample_decorate t1 (new_Operation (VStr "op")) in
  let w := final_state sample_decorate [Respond VNull answer_done] w0 in
  let w' := final_state sample_decorate t2 w in
  orderly sample_decorate t1 (new_Operation (VStr "op")) = true
  /\ run sample_decorate t1 (new_Operation (VStr "op")) = Some w0
  /\ truthy VNull || truthy (prop answer_done "error")
     || truthy (prop answer_done "done") = true
  /\ step sample_decorate (Respond VNull answer_done) w0 = Some w
  /\ stays_subscribed sample_decorate t2 w = true
  /\ run sample_decorate t2 w = Some w'
  /\ hasActiveListeners (op w') = false
  /\ (terminal w = true /\ pending w = 0%nat)
  /\ (fetches w' = fetches w /\ pending w' = 0%nat /\ terminal w' = true)
  /\ fetches (on "complete" (User 2) w') = S (fetches w')
  /\ pending (on "complete" (User 2) w') = 1%nat.
Proof.
  intros t1 t2 w0 w w'.
  assert (H1 : orderly sample_decorate t1 (new_Operation (VStr "op")) = true)
    by (vm_compute; reflexivity).
  assert (H2 : run sample_decorate t1 (new_Operation (VStr "op")) = Some w0)
    by (vm_compute; reflexivity).
  assert (H3 : truthy VNull || truthy (prop answer_done "error")
               || truthy (prop answer_done "done") = true)
    by (vm_compute; reflexivity).
  assert (H4 : step sample_decorate (Respond VNull answer_done) w0 = Some w)
    by (vm_compute; reflexivity).
  assert (H5 : stays_subscribed sample_decorate t2 w = true)
    by (vm_compute; reflexivity).
  assert (H6 : run sample_decorate t2 w = Some w') by (vm_compute; reflexivity).
  assert (H7 : hasActiveListeners (op w') = false) by (vm_compute; reflexivity).
  repeat (split; [assumption|]).
  pose proof (no_fetch_after_terminal_while_subscribed sample_decorate (VStr "op")
                t1 t2 w0 w w' VNull answer_done H1 H2 H3 H4 H5 H6) as K.
  split; [exact (proj1 K)|]. split; [exact (proj1 (proj2 K))|].
  exact (proj2 (proj2 K) H7 2%nat).
Defined.

(** The hypothesis on the run before the terminal event is needed: when a
    subscriber joined an idle handle with a cycle still pending, two poll
    loops run, and the one that is left after ['complete'] has fired goes on
    fetching for the subscriber that is still there. *)
Example stale_cycle_outlives_terminal_event :
  let t := [Subscribe "complete" 0%nat; Unsubscribe "complete" 0%nat;
            Subscribe "complete" 1%nat; Respond VNull answer_done] in
  let w := final_state sample_decorate t (new_Operation (VStr "op")) in
  let w' := final_state sample_decorate [Respond VNull answer_pending; Tick] w in
  orderly sample_decorate t (new_Operation (VStr "op")) = false
  /\ terminal w = true /\ pending w = 1%nat
  /\ fetches w = 2%nat /\ fetches w' = 3%nat.
Proof. vm_compute. repeat split; reflexivity. Qed.

Lemma polling_follows_listener_count_witness :
  let t := [Subscribe "complete" 0%nat; Respond VNull answer_pending;
            Unsubscribe "complete" 0%nat] in
  let w := final_state sample_decorate t (new_Operation (VStr "op")) in
  run sample_decorate t (new_Operation (VStr "op")) = Some w
  /\ ((hasActiveListeners (op w) = true <-> 0 < completeListeners (op w))
      /\ completeListeners (op w) = Z.of_nat (length (listeners w "complete"))
      /\ (terminal w = false -> 0 < completeListeners (op w) -> (1 <= pending w)%nat)
      /\ (no_complete_subscription t = true -> fetches w = 0%nat)).
Proof.
  intros t w.
  assert (H1 : run sample_decorate t (new_Operation (VStr "op")) = Some w)
    by (vm_compute; reflexivity).
  split; [assumption|].
  exact (polling_follows_listener_count sample_decorate (VStr "op") t w H1).
Defined.

(** C3, as stated, fails: a subscriber comes and goes twice before the
    transport has answered, and two status fetches are still in flight at
    the last unsubscribe; both are answered after it. *)
Lemma two_fetches_in_flight_after_last_unsubscribe :
  ~ (forall (d : Value -> Value) (nm : Value) (t1 t2 : list Action) (w w' : World),
       run d t1 (new_Operation nm) = Some w ->
       hasActiveListeners (op w) = false ->
       terminal w = false ->
       no_complete_subscription t2 = true ->
       run d t2 w = Some w' ->
       (count_responses t2 <= 1)%nat).
Proof.
  intros H.
  pose (t1 := [Subscribe "complete" 0%nat; Unsubscribe "complete" 0%nat;
               Subscribe "complete" 1%nat; Unsubscribe "complete" 1%nat]).
  pose (t2 := [Respond VNull answer_pending; Respond VNull answer_pending]).
  pose (w := final_state sample_decorate t1 (new_Operation (VStr "op"))).
  pose (w' := final_state sample_decorate t2 w).
  assert (E : (count_responses t2 <= 1)%nat).
  { apply (H sample_decorate (VStr "op") t1 t2 w w'); vm_compute; reflexivity. }
  vm_compute in E. lia.
Qed.

Lemma no_fetch_after_last_unsubscribe_witness :
  let t1 := [Subscribe "complete" 0%nat; Respond VNull answer_pending;
             Subscribe "complete" 1%nat; Tick;
             Unsubscribe "complete" 0%nat; Unsubscribe "complete" 1%nat] in
  let t2 := [Respond VNull answer_pending; Tick] in
  let w := final_state sample_decorate t1 (new_Operation (VStr "op")) in
  let w' := final_state sample_decorate t2 w in
  run sample_decorate t1 (new_Operation (VStr "op")) = Some w
  /\ hasActiveListeners (op w) = false
  /\ no_complete_subscription t2 = true
  /\ run sample_decorate t2 w = Some w'
  /\ orderly sample_decorate t1 (new_Operation (VStr "op")) = true
  /\ fetches w' = fetches w
  /\ (count_responses t2 + inflight w' = inflight w)%nat
  /\ (pending w' <= pending w)%nat
  /\ hasActiveListeners (op w') = false
  /\ startPolling_ w' = w'
  /\ (pending w <= 1)%nat /\ (count_responses t2 <= 1)%nat.
Proof.
  intros t1 t2 w w'.
  assert (H1 : run sample_decorate t1 (new_Operation (VStr "op")) = Some w)
    by (vm_compute; reflexivity).
  assert (H2 : hasActiveListeners (op w) = false) by (vm_compute; reflexivity).
  assert (H3 : no_complete_subscription t2 = true) by (vm_compute; reflexivity).
  assert (H4 : run sample_decorate t2 w = Some w') by (vm_compute; reflexivity).
  assert (H5 : orderly sample_decorate t1 (new_Operation (VStr "op")) = true)
    by (vm_compute; reflexivity).
  repeat (split; [assumption|]).
  pose proof (no_fetch_after_last_unsubscribe sample_decorate (VStr "op")
                t1 t2 w w' H1 H2 H3 H4) as (A & B & C & D & E & F).
  repeat (split; [assumption|]).
  exact (F H5).
Defined.

(** C4, as stated, fails in its second half: with only the payload's
    [error] field set, the hook is given [resp.result], here [undefined],
    and the ['error'] event carries neither the payload nor its [error]
    field passed through the hook. *)
Lemma logical_error_is_not_the_decorated_payload :
  ~ (forall (d : Value -> Value) (nm : Value) (t : list Action) (w w' : World)
            (err : Value) (resp : gmap string Value),
       run d t (new_Operation nm) = Some w ->
       step d (Respond err resp) w = Some w' ->
       (truthy err = true -> truthy (prop resp "error") = true ->
        emitted "error" w' = [err] :: emitted "error" w)
       /\ (truthy err = false -> truthy (prop resp "error") = true ->
           emitted "error" w' = [d (VObj resp)] :: emitted "error" w
           \/ emitted "error" w' = [d (prop resp "error")] :: emitted "error" w)).
Proof.
  intros H.
  pose (t := [Subscribe "complete" 0%nat]).
  pose (resp := ({[ "error" := VObj {[ "code" := VNum 5 ]} ]} : gmap string Value)).
  pose (w := final_state sample_decorate t (new_Operation (VStr "op"))).
  pose (w' := final_state sample_decorate [Respond VNull resp] w).
  assert (H1 : run sample_decorate t (new_Operation (VStr "op")) = Some w)
    by (vm_compute; reflexivity).
  assert (H2 : step sample_decorate (Respond VNull resp) w = Some w')
    by (vm_compute; reflexivity).
  destruct (H sample_decorate (VStr "op") t w w' VNull resp H1 H2) as [_ E].
  destruct (E eq_refl eq_refl) as [E1|E1];
    apply (f_equal (fun l => member (hd VUndefined (hd [] l)) "status")) in E1;
    vm_compute in E1; discriminate E1.
Qed.

Lemma transport_error_takes_precedence_witness :
  let t := [Subscribe "complete" 0%nat; Subscribe "error" 1%nat] in
  let w := final_state sample_decorate t (new_Operation (VStr "op")) in
  let w1 := final_state sample_decorate [Respond transport_error answer_failed] w in
  let w2 := final_state sample_decorate [Respond VNull answer_failed] w in
  run sample_decorate t (new_Operation (VStr "op")) = Some w
  /\ step sample_decorate (Respond transport_error answer_failed) w = Some w1
  /\ step sample_decorate (Respond VNull answer_failed) w = Some w2
  /\ truthy transport_error = true
  /\ truthy VNull = false
  /\ truthy (prop answer_failed "error") = true
  /\ (emitted "error" w1 = [transport_error] :: emitted "error" w
      /\ emitted "complete" w1 = emitted "complete" w /\ timers w1 = timers w)
  /\ (emitted "error" w2
      = [sample_decorate (prop answer_failed "result")] :: emitted "error" w
      /\ emitted "complete" w2 = emitted "complete" w /\ timers w2 = timers w).
Proof.
  intros t w w1 w2.
  assert (H1 : run sample_decorate t (new_Operation (VStr "op")) = Some w)
    by (vm_compute; reflexivity).
  assert (H2 : step sample_decorate (Respond transport_error answer_failed) w = Some w1)
    by (vm_compute; reflexivity).
  assert (H3 : step sample_decorate (Respond VNull answer_failed) w = Some w2)
    by (vm_compute; reflexivity).
  assert (H4 : truthy transport_error = true) by reflexivity.
  assert (H5 : truthy VNull = false) by reflexivity.
  assert (H6 : truthy (prop answer_failed "error") = true) by reflexivity.
  repeat (split; [assumption|]).
  split.
  - exact (proj1 (transport_error_takes_precedence sample_decorate (VStr "op")
                    t w w1 transport_error answer_failed H1 H2) H4).
  - exact (proj2 (transport_error_takes_precedence sample_decorate (VStr "op")
                    t w w2 VNull answer_failed H1 H3) H5 H6).
Defined.

Lemma fixed_interval_poll_until_done_witness :
  let t := [Subscribe "complete" 0%nat] in
  let w := final_state sample_decorate t (new_Operation (VStr "op")) in
  let w' := final_state sample_decorate [Respond VNull answer_pending] w in
  run sample_decorate t (new_Operation (VStr "op")) = Some w
  /\ hasActiveListeners (op w) = true
  /\ truthy VNull = false
  /\ truthy (prop answer_pending "error") = false
  /\ step sample_decorate (Respond VNull answer_pending) w = Some w'
  /\ truthy (prop answer_pending "done") = false
  /\ (effects w' = SetTimeout 500 :: effects w
      /\ timers w' = timers w ++ [500]
      /\ fetches w' = fetches w
      /\ emitted "complete" w' = emitted "complete" w
      /\ emitted "error" w' = emitted "error" w
      /\ exists w'', step sample_decorate Tick w' = Some w''
                     /\ fetches w'' = S (fetches w)
                     /\ length (timers w'') = length (timers w)).
Proof.
  intros t w w'.
  assert (H1 : run sample_decorate t (new_Operation (VStr "op")) = Some w)
    by (vm_compute; reflexivity).
  assert (H2 : hasActiveListeners (op w) = true) by (vm_compute; reflexivity).
  assert (H3 : truthy VNull = false) by reflexivity.
  assert (H4 : truthy (prop answer_pending "error") = false) by reflexivity.
  assert (H5 : step sample_decorate (Respond VNull answer_pending) w = Some w')
    by (vm_compute; reflexivity).
  assert (H6 : truthy (prop answer_pending "done") = false) by reflexivity.
  repeat (split; [assumption|]).
  exact (proj1 (fixed_interval_poll_until_done sample_decorate (VStr "op")
                  t w w' VNull answer_pending H1 H2 H3 H4 H5) H6).
Defined.

Lemma one_poll_loop_for_subscriptions_witness :
  let t := [Subscribe "complete" 0%nat; Respond VNull answer_pending;
            Subscribe "error" 1%nat; Tick; MakePromise] in
  let w := final_state sample_decorate t (new_Operation (VStr "op")) in
  only_subscriptions t = true
  /\ run sample_decorate t (new_Operation (VStr "op")) = Some w
  /\ ((pending w <= 1)%nat
      /\ forall id,
           hasActiveListeners (op w) = true ->
           completeListeners (op (on "complete" (User id) w))
           = completeListeners (op w) + 1
           /\ hasActiveListeners (op (on "complete" (User id) w)) = true
           /\ fetches (on "complete" (User id) w) = fetches w
           /\ inflight (on "complete" (User id) w) = inflight w
           /\ timers (on "complete" (User id) w) = timers w).
Proof.
  intros t w.
  assert (H1 : only_subscriptions t = true) by reflexivity.
  assert (H2 : run sample_decorate t (new_Operation (VStr "op")) = Some w)
    by (vm_compute; reflexivity).
  repeat (split; [assumption|]).
  exact (one_poll_loop_for_subscriptions sample_decorate (VStr "op") t w H1 H2).
Defined.

(** C8, as stated, fails: two answers that agree on [done], [error],
    [response] and [name] and differ in [result] are both done, and the two
    ['complete'] events carry different values, the two payloads. *)
Lemma complete_value_depends_on_other_fields :
  ~ (forall (d : Value -> Value) (nm : Value) (t : list Action) (w w1 w2 : World)
            (err : Value) (r1 r2 : gmap string Value),
       run d t (new_Operation nm) = Some w ->
       prop r1 "done" = prop r2 "done" ->
       prop r1 "error" = prop r2 "error" ->
       prop r1 "response" = prop r2 "response" ->
       prop r1 "name" = prop r2 "name" ->
       step d (Respond err r1) w = Some w1 ->
       step d (Respond err r2) w = Some w2 ->
       timers w1 = timers w2
       /\ emitted "complete" w1 = emitted "complete" w2
       /\ emitted "error" w1 = emitted "error" w2).
Proof.
  intros H.
  pose (t := [Subscribe "complete" 0%nat]).
  pose (r1 := ({[ "done" := VBool true; "result" := VNum 1 ]} : gmap string Value)).
  pose (r2 := ({[ "done" := VBool true; "result" := VNum 2 ]} : gmap string Value)).
  pose (w := final_state sample_decorate t (new_Operation (VStr "op"))).
  pose (w1 := final_state sample_decorate [Respond VNull r1] w).
  pose (w2 := final_state sample_decorate [Respond VNull r2] w).
  assert (E : timers w1 = timers w2
              /\ emitted "complete" w1 = emitted "complete" w2
              /\ emitted "error" w1 = emitted "error" w2).
  { apply (H sample_decorate (VStr "op") t w w1 w2 VNull r1 r2);
      vm_compute; reflexivity. }
  destruct E as (_ & E & _).
  apply (f_equal (fun l => member (hd VUndefined (hd [] l)) "result")) in E.
  vm_compute in E. discriminate E.
Qed.

Lemma poll_cycle_reads_done_error_result_witness :
  let t := [Subscribe "complete" 0%nat] in
  let r1 := ({[ "done" := VBool true; "result" := VNum 1; "name" := VStr "a" ]}
             : gmap string Value) in
  let r2 := ({[ "done" := VBool true; "result" := VNum 1; "name" := VStr "b" ]}
             : gmap string Value) in
  let w := final_state sample_decorate t (new_Operation (VStr "op")) in
  let w1 := final_state sample_decorate [Respond VNull r1] w in
  let w2 := final_state sample_decorate [Respond VNull r2] w in
  run sample_decorate t (new_Operation (VStr "op")) = Some w
  /\ prop r1 "done" = prop r2 "done"
  /\ prop r1 "error" = prop r2 "error"
  /\ prop r1 "result" = prop r2 "result"
  /\ step sample_decorate (Respond VNull r1) w = Some w1
  /\ step sample_decorate (Respond VNull r2) w = Some w2
  /\ (op w1 = op w2 /\ inflight w1 = inflight w2 /\ timers w1 = timers w2
      /\ fetches w1 = fetches w2
      /\ emitted "error" w1 = emitted "error" w2
      /\ ((emitted "complete" w1 = emitted "complete" w
           /\ emitted "complete" w2 = emitted "complete" w)
          \/ (emitted "complete" w1 = [VObj r1] :: emitted "complete" w
              /\ emitted "complete" w2 = [VObj r2] :: emitted "complete" w))).
Proof.
  intros t r1 r2 w w1 w2.
  assert (H1 : run sample_decorate t (new_Operation (VStr "op")) = Some w)
    by (vm_compute; reflexivity).
  assert (H2 : prop r1 "done" = prop r2 "done") by (vm_compute; reflexivity).
  assert (H3 : prop r1 "error" = prop r2 "error") by (vm_compute; reflexivity).
  assert (H4 : prop r1 "result" = prop r2 "result") by (vm_compute; reflexivity).
  assert (H5 : step sample_decorate (Respond VNull r1) w = Some w1)
    by (vm_compute; reflexivity).
  assert (H6 : step sample_decorate (Respond VNull r2) w = Some w2)
    by (vm_compute; reflexivity).
  repeat (split; [assumption|]).
  exact (poll_cycle_reads_done_error_result sample_decorate (VStr "op")
           t w w1 w2 VNull r1 r2 H1 H2 H3 H4 H5 H6).
Defined.

(** C7, as stated, fails in what the promise resolves with: the closure
    [promise] subscribes calls [resolve([metadata])], so the value is the
    one-element array that holds the metadata, not the metadata. *)
Lemma promise_resolves_with_an_array :
  ~ (forall (d : Value -> Value) (nm : Value) (t0 t : list Action) (w0 w w' : World)
            (err : Value) (resp : gmap string Value),
       run d t0 (new_Operation nm) = Some w0 ->
       no_terminal_answer t = true ->
       run d t (snd (promise w0)) = Some w ->
       step d (Respond err resp) w = Some w' ->
       truthy err || truthy (prop resp "error") = false ->
       truthy (prop resp "done") = true ->
       promises w' !! fst (promise w0) = Some (Resolved (VObj resp))).
Proof.
  intros H.
  pose (w0 := new_Operation (VStr "op")).
  pose (w := snd (promise w0)).
  pose (w' := final_state sample_decorate [Respond VNull answer_done] w).
  assert (E : promises w' !! fst (promise w0) = Some (Resolved (VObj answer_done))).
  { apply (H sample_decorate (VStr "op") [] [] w0 w w' VNull answer_done);
      vm_compute; reflexivity. }
  vm_compute in E. discriminate E.
Qed.

Lemma promise_settles_with_terminal_event_witness :
  let t := [Respond VNull answer_pending; Tick] in
  let w0 := new_Operation (VStr "op") in
  let w := final_state sample_decorate t (snd (promise w0)) in
  let w' := final_state sample_decorate [Respond VNull answer_done] w in
  run sample_decorate [] (new_Operation (VStr "op")) = Some w0
  /\ no_terminal_answer t = true
  /\ run sample_decorate t (snd (promise w0)) = Some w
  /\ step sample_decorate (Respond VNull answer_done) w = Some w'
  /\ truthy VNull || truthy (prop answer_done "error") = false
  /\ truthy (prop answer_done "done") = true
  /\ (emitted "complete" w' = [VObj answer_done] :: emitted "complete" w
      /\ promises w' !! fst (promise w0) = Some (Resolved (VArr [VObj answer_done]))).
Proof.
  intros t w0 w w'.
  assert (H1 : run sample_decorate [] (new_Operation (VStr "op")) = Some w0)
    by reflexivity.
  assert (H2 : no_terminal_answer t = true) by (vm_compute; reflexivity).
  assert (H3 : run sample_decorate t (snd (promise w0)) = Some w)
    by (vm_compute; reflexivity).
  assert (H4 : step sample_decorate (Respond VNull answer_done) w = Some w')
    by (vm_compute; reflexivity).
  assert (H5 : truthy VNull || truthy (prop answer_done "error") = false)
    by (vm_compute; reflexivity).
  assert (H6 : truthy (prop answer_done "done") = true) by (vm_compute; reflexivity).
  repeat (split; [assumption|]).
  exact (proj2 (proj2 (proj2 (proj2 (proj2 (proj2
           (promise_settles_with_terminal_event sample_decorate (VStr "op")
              [] t w0 w w' VNull answer_done 0%nat H1 H2 H3 H4)))))) H5 H6).
Defined.

Lemma operation_requires_name_witness :
  truthy (VStr "") = false
  /\ operation (VStr "") = inl (Error "A name must be specified for an operation.").
Proof.
  split; [reflexivity|].
  exact (proj1 (operation_requires_name (VStr "")) eq_refl).
Defined.

Lemma formatName_idempotent_witness :
  let this := mkFunctions (VStr "my-project") (VStr "us-central1") in
  (forall p r n, indexOf "/"%char (functionPath_template p r n) > -1)
  /\ ((indexOf "/"%char "helloWorld" > -1 ->
       _formatName functionPath_template this VUndefined VUndefined "helloWorld"
       = "helloWorld")
      /\ _formatName functionPath_template this VUndefined VUndefined
           (_formatName functionPath_template this VUndefined VUndefined "helloWorld")
         = _formatName functionPath_template this VUndefined VUndefined "helloWorld").
Proof.
  intros this.
  assert (H : forall p r n, indexOf "/"%char (functionPath_template p r n) > -1)
    by (intros p r n; reflexivity).
  split; [assumption|].
  exact (formatName_idempotent functionPath_template this VUndefined VUndefined
           "helloWorld" H).
Defined.

Example formatName_sample :
  _formatName functionPath_template
    (mkFunctions (VStr "my-project") (VStr "us-central1"))
    VUndefined VUndefined "helloWorld"
  = "projects/my-project/locations/us-central1/functions/helloWorld".
Proof. reflexivity. Qed.

(** ** What a step adds to the log *)

Lemma effects_newListener_hook (e : Value) (w : World) :
  name (op (newListener_hook e w)) = name (op w)
  /\ (effects (newListener_hook e w) = effects w
      \/ effects (newListener_hook e w) = Fetch (name (op w)) :: effects w).
Proof.
  unfold newListener_hook, startPolling_, get.
  repeat (case_match; simpl); auto.
Qed.

Lemma effects_removeListener_hook (e : Value) (w : World) :
  name (op (removeListener_hook e w)) = name (op w)
  /\ effects (removeListener_hook e w) = effects w.
Proof.
  unfold removeListener_hook. repeat (case_match; simpl); auto.
Qed.

Lemma effects_on (ev : string) (l : Listener) (w : World) :
  wf w ->
  name (op (on ev l w)) = name (op w)
  /\ exists e, is_fetch e = false /\ (forall v, e <> Uncaught v)
     /\ (effects (on ev l w) = e :: effects w
         \/ effects (on ev l w) = Fetch (name (op w)) :: e :: effects w).
Proof.
  intros Hw. rewrite on_unfold by assumption. simpl.
  destruct (effects_newListener_hook (VStr ev)
              (record (Emit "newListener" [VStr ev; VFun l]
                         (listeners w "newListener")) w)) as [N E].
  split; [exact N|].
  exists (Emit "newListener" [VStr ev; VFun l] (listeners w "newListener")).
  split; [reflexivity|]. split; [discriminate|]. exact E.
Qed.

Lemma effects_removeListener (ev : string) (l : Listener) (w : World) :
  wf w -> is_user l = true ->
  name (op (removeListener ev l w)) = name (op w)
  /\ (effects (removeListener ev l w) = effects w
      \/ exists e, is_fetch e = false /\ (forall v, e <> Uncaught v)
                   /\ effects (removeListener ev l w) = e :: effects w).
Proof.
  intros Hw Hl. destruct (remove_last l (listeners w ev)) as [ls'|] eqn:E.
  - rewrite (removeListener_unfold ev l ls') by assumption.
    destruct (effects_removeListener_hook (VStr ev)
                (record (Emit "removeListener" [VStr ev; VFun l]
                           (listeners (unregistered ev ls' w) "removeListener"))
                   (unregistered ev ls' w))) as [N F].
    split; [exact N|]. right. eexists. split; [|split; [|exact F]].
    + reflexivity.
    + discriminate.
  - rewrite removeListener_absent by assumption. auto.
Qed.

(** The log after [emit], for the events that have no hook. *)
Lemma effects_emit (ev : string) (args : list Value) (w : World) :
  Forall (fun l => is_hook l = false) (listeners w ev) ->
  effects (emit ev args w)
  = (if is_nil (listeners w ev) && String.eqb ev "error"
     then [Uncaught (hd VUndefined args)] else [])
    ++ Emit ev args (listeners w ev) :: effects w.
Proof.
  intros H. unfold emit.
  destruct (foldl_call_plain (listeners w ev) args
              (record (Emit ev args (listeners w ev)) w) H) as (_ & _ & _ & E4).
  simpl in E4.
  destruct (listeners w ev) as [|l ls] eqn:El; simpl.
  - destruct (String.eqb ev "error"); reflexivity.
  - exact E4.
Qed.

Lemma length_fetch_names (w : World) : length (fetch_names w) = fetches w.
Proof.
  unfold fetch_names, fetches. induction (effects w) as [|e es IH]; simpl.
  - reflexivity.
  - destruct e; simpl; auto.
Qed.

Lemma remove_last_snoc (l : Listener) (ls : list Listener) :
  remove_last l (ls ++ [l]) = Some ls.
Proof.
  induction ls as [|x xs IH]; simpl.
  - destruct (decide (l = l)); [reflexivity | contradiction].
  - rewrite IH. reflexivity.
Qed.

Section Log.

Variable decorateStatus_ : Value -> Value.

Lemma log_on (ev : string) (l : Listener) (w : World) :
  wf w ->
  name (op (on ev l w)) = name (op w)
  /\ uncaught (on ev l w) = uncaught w
  /\ fetch_names (on ev l w)
     = if String.eqb ev "complete" && negb (hasActiveListeners (op w))
       then name (op w) :: fetch_names w else fetch_names w.
Proof.
  intros Hw. destruct (effects_on ev l w Hw) as (N & e & Hf & Hu & E).
  assert (V : fetches (on ev l w)
              = if String.eqb ev "complete" && negb (hasActiveListeners (op w))
                then S (fetches w) else fetches w).
  { change (fetches (on ev l w)) with (v_fetches (view (on ev l w))).
    rewrite view_on by assumption. unfold view_subscribe. simpl.
    destruct (String.eqb ev "complete"); [|reflexivity].
    destruct (hasActiveListeners (op w)); reflexivity. }
  remember (on ev l w) as w2 eqn:Ew2. clear Ew2.
  split; [exact N|].
  unfold uncaught, fetch_names, fetches in *.
  destruct E as [E|E]; rewrite E in *.
  - assert (C : count_fetches (e :: effects w) = count_fetches (effects w))
      by (simpl; rewrite Hf; reflexivity).
    rewrite C in V.
    destruct (String.eqb ev "complete" && negb (hasActiveListeners (op w))); [lia|].
    destruct e; try discriminate Hf; try (split; reflexivity).
    exfalso. eapply Hu. reflexivity.
  - assert (C : count_fetches (Fetch (name (op w)) :: e :: effects w)
                = S (count_fetches (effects w)))
      by (simpl; rewrite Hf; reflexivity).
    rewrite C in V.
    destruct (String.eqb ev "complete" && negb (hasActiveListeners (op w))); [|lia].
    destruct e; try discriminate Hf; try (split; reflexivity).
    exfalso. eapply Hu. reflexivity.
Qed.

Lemma log_removeListener (ev : string) (l : Listener) (w : World) :
  wf w -> is_user l = true ->
  name (op (removeListener ev l w)) = name (op w)
  /\ uncaught (removeListener ev l w) = uncaught w
  /\ fetch_names (removeListener ev l w) = fetch_names w.
Proof.
  intros Hw Hl. destruct (effects_removeListener ev l w Hw Hl) as (N & E).
  split; [exact N|]. unfold uncaught, fetch_names.
  destruct E as [E|(e & Hf & Hu & E)]; rewrite E; [auto|].
  destruct e; simpl in *; try discriminate; auto.
  exfalso. eapply Hu. reflexivity.
Qed.

Lemma log_poll_response (err : Value) (resp : gmap string Value) (w : World) :
  wf w ->
  op (poll_response decorateStatus_ err resp w) = op w
  /\ fetch_names (poll_response decorateStatus_ err resp w) = fetch_names w
  /\ uncaught (poll_response decorateStatus_ err resp w)
     = thrown_by decorateStatus_ (Respond err resp) w ++ uncaught w.
Proof.
  intros Hw. split; [apply poll_response_op; assumption|].
  unfold poll_response, thrown_by, fetch_names, uncaught.
  destruct (truthy err || truthy (prop resp "error")) eqn:E1; simpl.
  - rewrite effects_emit by (apply (wf_other w Hw); discriminate).
    rewrite andb_true_r.
    destruct (is_nil (listeners w "error")); simpl; auto.
  - destruct (truthy (prop resp "done")); simpl; [|auto].
    rewrite effects_emit by (apply (wf_other w Hw); discriminate).
    rewrite andb_false_r. simpl. auto.
Qed.

(** What one action adds to the log. *)
Lemma step_log (a : Action) (w w' : World) :
  wf w -> step decorateStatus_ a w = Some w' ->
  name (op w') = name (op w)
  /\ (fetch_names w' = fetch_names w \/ fetch_names w' = name (op w) :: fetch_names w)
  /\ uncaught w' = thrown_by decorateStatus_ a w ++ uncaught w.
Proof.
  intros Hw H. destruct a; unfold step in H.
  - apply (inj Some) in H. subst w'.
    destruct (log_on ev (User id) w Hw) as (N & U & F).
    repeat split; auto. rewrite F. case_match; auto.
  - apply (inj Some) in H. subst w'.
    destruct (log_removeListener ev (User id) w Hw eq_refl) as (N & U & F).
    repeat split; auto.
  - apply (inj Some) in H. subst w'. rewrite promise_unfold. cbn [snd].
    assert (Hw0 : wf (with_promise w)) by (eapply wf_op; [|exact Hw]; reflexivity).
    assert (Hw1 : wf (on "error" (PromiseReject (length (promises w))) (with_promise w)))
      by (apply on_wf; auto; intros [|]; discriminate).
    destruct (log_on "error" (PromiseReject (length (promises w))) _ Hw0)
      as (N0 & U0 & F0).
    destruct (log_on "complete" (PromiseResolve (length (promises w))) _ Hw1)
      as (N1 & U1 & F1).
    assert (Hc : String.eqb "error" "complete" = false) by reflexivity.
    rewrite Hc in F0. cbn [andb] in F0.
    rewrite N1, N0, U1, U0, F1, F0, N0.
    change (name (op (with_promise w))) with (name (op w)).
    change (fetch_names (with_promise w)) with (fetch_names w).
    change (uncaught (with_promise w)) with (uncaught w).
    unfold thrown_by. repeat split; auto. case_match; auto.
  - destruct (inflight w) as [|n]; [discriminate|]. apply (inj Some) in H. subst w'.
    set (w1 := mkWorld (op w) n (timers w) (promises w) (effects w)).
    assert (Hw1 : wf w1) by (eapply wf_op; [|exact Hw]; reflexivity).
    destruct (log_poll_response err resp w1 Hw1) as (O & F & U).
    rewrite O, F, U. repeat split; auto.
  - destruct (timers w) as [|d ts]; [discriminate|]. apply (inj Some) in H. subst w'.
    unfold startPolling_, get. case_match; simpl; repeat split; auto.
Qed.

End Log.

(** ** Further properties of the handle *)

Section HandleProperties.

Variable decorateStatus_ : Value -> Value.

Lemma run_fetch_names (t : list Action) (w w' : World) :
  wf w ->
  Forall (fun n => n = name (op w)) (fetch_names w) ->
  run decorateStatus_ t w = Some w' ->
  name (op w') = name (op w) /\ Forall (fun n => n = name (op w)) (fetch_names w').
Proof.
  revert w. induction t as [|a t IH]; intros w Hw HF Hrun; simpl in Hrun.
  - injection Hrun as <-. auto.
  - destruct (step decorateStatus_ a w) as [w1|] eqn:E; [|discriminate].
    destruct (step_log decorateStatus_ a w w1 Hw E) as (N & F & _).
    assert (HF1 : Forall (fun n => n = name (op w1)) (fetch_names w1)).
    { rewrite N. destruct F as [->| ->]; [assumption|]. constructor; auto. }
    destruct (IH w1 (step_wf decorateStatus_ a w w1 Hw E) HF1 Hrun) as [N2 F2].
    rewrite N in N2, F2. auto.
Qed.

(** X1. Every status request of a run is sent for the name the handle was
    constructed with; the handle's name never changes. *)
Theorem every_fetch_names_the_handle (nm : Value) (t : list Action) (w : World) :
  run decorateStatus_ t (new_Operation nm) = Some w ->
  name (op w) = nm
  /\ Forall (fun n => n = nm) (fetch_names w)
  /\ length (fetch_names w) = fetches w.
Proof.
  intros Hrun.
  assert (F0 : Forall (fun n => n = name (op (new_Operation nm)))
                 (fetch_names (new_Operation nm)))
    by (rewrite new_Operation_eq; constructor).
  destruct (run_fetch_names t _ w (new_Operation_wf nm) F0 Hrun) as [N F].
  rewrite new_Operation_eq in N, F. simpl in N, F.
  repeat split; auto. apply length_fetch_names.
Qed.

(** X2. In a run in which no subscriber joined an idle handle with a cycle
    still pending, the answer that makes the poll cycle emit ['error'] or
    ['complete'] ends the loop: nothing is in flight, no timer is set, no
    request was sent for it, and neither an answer nor a timer can come. *)
Theorem terminal_answer_ends_the_loop
    (nm : Value) (t : list Action) (w w' : World)
    (err : Value) (resp : gmap string Value) :
  orderly decorateStatus_ t (new_Operation nm) = true ->
  run decorateStatus_ t (new_Operation nm) = Some w ->
  truthy err || truthy (prop resp "error") || truthy (prop resp "done") = true ->
  step decorateStatus_ (Respond err resp) w = Some w' ->
  inflight w' = 0%nat /\ timers w' = [] /\ fetches w' = fetches w
  /\ terminal w' = true
  /\ step decorateStatus_ Tick w' = None
  /\ forall err' resp', step decorateStatus_ (Respond err' resp') w' = None.
Proof.
  intros Ho Hrun Ht Hstep.
  pose proof (new_Operation_wf nm) as Hw0.
  pose proof (run_wf decorateStatus_ t _ _ Hw0 Hrun) as Hw.
  assert (J : one_loop (view w)).
  { apply (run_guarded_invariant decorateStatus_ _ one_loop)
      with (t := t) (w := new_Operation nm) (3 := Ho); auto.
    - intros a w1 v' Ha _ J H. eapply one_loop_step; eauto.
    - rewrite view_new_Operation. unfold one_loop. simpl. lia. }
  unfold one_loop in J. simpl in J.
  unfold step in Hstep. destruct (inflight w) as [|n] eqn:En; [discriminate|].
  apply (inj Some) in Hstep.
  set (w1 := mkWorld (op w) n (timers w) (promises w) (effects w)) in *.
  assert (Hw1 : wf w1) by (eapply wf_op; [|exact Hw]; reflexivity).
  pose proof (view_poll_response decorateStatus_ err resp w1 Hw1) as V.
  rewrite Ht, Hstep in V. unfold view in V. simpl in V.
  injection V as _ _ VI VT VF VM.
  assert (Hn : n = 0%nat) by lia. rewrite Hn in VI.
  assert (HT : timers w = []) by (destruct (timers w); [reflexivity | simpl in J; lia]).
  rewrite HT in VT.
  repeat split; auto.
  - unfold step. rewrite VT. reflexivity.
  - intros err' resp'. unfold step. rewrite VI. reflexivity.
Qed.

Lemma step_uncaught (a : Action) (w w' : World) :
  wf w -> step decorateStatus_ a w = Some w' ->
  uncaught w' = thrown_by decorateStatus_ a w ++ uncaught w.
Proof.
  intros Hw Hstep.
  destruct (step_log decorateStatus_ a w w' Hw Hstep) as (_ & _ & U). exact U.
Qed.

(** X3. An answer that makes the poll cycle emit ['error'] while nobody
    listens to ['error'] makes [emit] throw: the error value itself when it
    is an [Error] instance, and otherwise a new [Error] that has the error
    value as its context.  With a listener registered, and for every other
    action, nothing is thrown. *)
Theorem unheard_error_is_thrown
    (instanceof_Error : Value -> bool)
    (nm : Value) (t : list Action) (a : Action) (w w' : World) :
  run decorateStatus_ t (new_Operation nm) = Some w ->
  step decorateStatus_ a w = Some w' ->
  (forall err resp,
     a = Respond err resp ->
     truthy err || truthy (prop resp "error") = true ->
     listeners w "error" = [] ->
     exceptions instanceof_Error w'
     = (if instanceof_Error (js_or err (decorateStatus_ (prop resp "result")))
        then ThrowsArgument (js_or err (decorateStatus_ (prop resp "result")))
        else ThrowsUnhandled (js_or err (decorateStatus_ (prop resp "result"))))
       :: exceptions instanceof_Error w)
  /\ (listeners w "error" <> [] ->
      exceptions instanceof_Error w' = exceptions instanceof_Error w)
  /\ ((forall err resp, a = Respond err resp ->
                        truthy err || truthy (prop resp "error") = false) ->
      exceptions instanceof_Error w' = exceptions instanceof_Error w).
Proof.
  intros Hrun Hstep.
  pose proof (run_wf decorateStatus_ t _ _ (new_Operation_wf nm) Hrun) as Hw.
  unfold exceptions. rewrite (step_uncaught a w w' Hw Hstep).
  unfold thrown_by. split; [|split].
  - intros err resp -> He Hl. rewrite He, Hl. reflexivity.
  - intros Hl. destruct a; try reflexivity.
    destruct (listeners w "error"); [contradiction|].
    rewrite andb_false_r. reflexivity.
  - intros Hn. destruct a; try reflexivity.
    rewrite (Hn err resp eq_refl). reflexivity.
Qed.

Lemma step_guards_errors (p : nat) (a : Action) (w w' : World) :
  wf w -> guards_errors p w -> step decorateStatus_ a w = Some w' ->
  guards_errors p w'.
Proof.
  unfold guards_errors. intros Hw G H. destruct a; unfold step in H.
  - apply (inj Some) in H. subst w'. rewrite listeners_on by assumption.
    destruct (decide (ev = "error")) as [->|]; [apply elem_of_app|]; auto.
  - apply (inj Some) in H. subst w'.
    destruct (remove_last (User id) (listeners w ev)) as [ls'|] eqn:E.
    + rewrite (listeners_removeListener ev _ (User id) ls') by auto.
      destruct (decide (ev = "error")) as [->|]; [|auto].
      eapply remove_last_elem; eauto. discriminate.
    + rewrite removeListener_absent by assumption. assumption.
  - apply (inj Some) in H. subst w'. rewrite promise_unfold. cbn [snd].
    assert (Hw0 : wf (with_promise w)) by (eapply wf_op; [|exact Hw]; reflexivity).
    rewrite !listeners_on
      by (try apply on_wf; auto; intros [|]; discriminate).
    simpl. apply elem_of_app. left. exact G.
  - destruct (inflight w) as [|n]; [discriminate|]. apply (inj Some) in H. subst w'.
    set (w1 := mkWorld (op w) n (timers w) (promises w) (effects w)).
    assert (Hw1 : wf w1) by (eapply wf_op; [|exact Hw]; reflexivity).
    unfold listeners. rewrite (poll_response_op decorateStatus_ err resp w1 Hw1).
    exact G.
  - destruct (timers w) as [|d ts]; [discriminate|]. apply (inj Some) in H. subst w'.
    unfold listeners, startPolling_. case_match; exact G.
Qed.

Lemma run_guarded_errors (p : nat) (t : list Action) (w w' : World) :
  wf w -> guards_errors p w -> run decorateStatus_ t w = Some w' ->
  uncaught w' = uncaught w.
Proof.
  revert w. induction t as [|a t IH]; intros w Hw G Hrun; simpl in Hrun.
  - injection Hrun as <-. reflexivity.
  - destruct (step decorateStatus_ a w) as [w1|] eqn:E; [|discriminate].
    rewrite (IH w1 (step_wf decorateStatus_ a w w1 Hw E)
               (step_guards_errors p a w w1 Hw G E) Hrun).
    destruct (step_log decorateStatus_ a w w1 Hw E) as (_ & _ & U).
    rewrite U. unfold thrown_by. destruct a; try reflexivity.
    unfold guards_errors in G. destruct (listeners w "error"); [inversion G|].
    rewrite andb_false_r. reflexivity.
Qed.

(** X4. Once [promise] has been called on a handle, no later answer makes
    [emit] throw: the promise's [reject] stays subscribed to ['error'] through
    every subscription, unsubscription, answer and timer. *)
Theorem promise_keeps_errors_handled
    (nm : Value) (t0 t : list Action) (w0 w : World) :
  run decorateStatus_ t0 (new_Operation nm) = Some w0 ->
  run decorateStatus_ t (snd (promise w0)) = Some w ->
  uncaught w = uncaught w0
  /\ PromiseReject (fst (promise w0)) ∈ listeners w "error".
Proof.
  intros Hrun0 Hrun.
  pose proof (run_wf decorateStatus_ t0 _ _ (new_Operation_wf nm) Hrun0) as Hw0.
  pose proof (promise_wf w0 Hw0) as Hw1.
  assert (G1 : guards_errors (fst (promise w0)) (snd (promise w0)))
    by apply (promise_armed w0 Hw0).
  split.
  - rewrite (run_guarded_errors _ t _ _ Hw1 G1 Hrun).
    destruct (step_log decorateStatus_ MakePromise w0 (snd (promise w0)) Hw0 eq_refl)
      as (_ & _ & U).
    exact U.
  - revert Hrun Hw1 G1. generalize (snd (promise w0)) as w1.
    generalize (fst (promise w0)) as p. clear. intros p w1. revert w1.
    induction t as [|a t IH]; intros w1 Hrun Hw1 G1; simpl in Hrun.
    + injection Hrun as <-. exact G1.
    + destruct (step decorateStatus_ a w1) as [w2|] eqn:E; [|discriminate].
      apply (IH w2 Hrun); [eapply step_wf | eapply step_guards_errors]; eauto.
Qed.

Lemma run_fetch_budget (t : list Action) (w w' : World) :
  wf w -> run decorateStatus_ t w = Some w' ->
  (fetches w' + length (timers w')
   <= fetches w + length (timers w)
      + count_actions is_complete_subscription t + count_actions reschedules t)%nat.
Proof.
  revert w. induction t as [|a t IH]; intros w Hw Hrun; simpl in Hrun.
  - injection Hrun as <-. simpl. lia.
  - destruct (step decorateStatus_ a w) as [w1|] eqn:E; [|discriminate].
    pose proof (step_wf decorateStatus_ a w w1 Hw E) as Hw1.
    pose proof (step_vstep decorateStatus_ a w w1 Hw E) as V.
    specialize (IH w1 Hw1 Hrun).
    assert (S1 : (fetches w1 + length (timers w1)
                  <= fetches w + length (timers w)
                     + (if is_complete_subscription a then 1 else 0)
                     + (if reschedules a then 1 else 0))%nat).
    { remember (view w1) as v1 eqn:Ev1.
      assert (Hv1 : v_fetches v1 = fetches w1 /\ v_timers v1 = timers w1)
        by (subst v1; simpl; auto).
      destruct Hv1 as (<- & <-). clear Ev1 E IH Hrun.
      vstep_cases V; try rewrite length_app; simpl; try lia;
        simplify_eq; simpl; try lia;
        repeat match goal with
               | H : _ = true |- _ => rewrite H
               | H : _ = false |- _ => rewrite H
               end; simpl; try lia;
        match goal with
        | A : ?x = _, B : negb ?x = _ |- _ => rewrite A in B; discriminate B
        end. }
    simpl. destruct (is_complete_subscription a), (reschedules a); lia.
Qed.

(** X5. The status requests sent in a run, together with the timers still
    set, never outnumber the ['complete'] subscriptions (calls of [promise]
    included) plus the answers that were error-free and not done. *)
Theorem fetches_bounded_by_subscriptions_and_answers
    (nm : Value) (t : list Action) (w : World) :
  run decorateStatus_ t (new_Operation nm) = Some w ->
  (fetches w + length (timers w)
   <= count_actions is_complete_subscription t + count_actions reschedules t)%nat.
Proof.
  intros Hrun.
  pose proof (run_fetch_budget t _ _ (new_Operation_wf nm) Hrun) as B.
  rewrite new_Operation_eq in B. simpl in B. exact B.
Qed.

(** X6. Subscribing one of the caller's functions and removing it again
    restores the listener counter, the polling flag and every listener list,
    and leaves the timers alone; when it was a ['complete'] subscription on
    an idle handle, the status request it started stays in flight. *)
Theorem subscribe_then_unsubscribe
    (nm : Value) (t : list Action) (w : World) (ev : string) (id : nat) :
  run decorateStatus_ t (new_Operation nm) = Some w ->
  completeListeners (op (removeListener ev (User id) (on ev (User id) w)))
  = completeListeners (op w)
  /\ hasActiveListeners (op (removeListener ev (User id) (on ev (User id) w)))
     = hasActiveListeners (op w)
  /\ (forall ev', listeners (removeListener ev (User id) (on ev (User id) w)) ev'
                  = listeners w ev')
  /\ timers (removeListener ev (User id) (on ev (User id) w)) = timers w
  /\ inflight (removeListener ev (User id) (on ev (User id) w))
     = if String.eqb ev "complete" && negb (hasActiveListeners (op w))
       then S (inflight w) else inflight w.
Proof.
  intros Hrun.
  pose proof (run_wf decorateStatus_ t _ _ (new_Operation_wf nm) Hrun) as Hw.
  pose proof (on_wf ev (User id) w Hw eq_refl (fun _ => eq_refl)) as Hw1.
  assert (R : remove_last (User id) (listeners (on ev (User id) w) ev)
              = Some (listeners w ev)).
  { rewrite listeners_on by assumption.
    destruct (decide (ev = ev)); [|contradiction]. apply remove_last_snoc. }
  pose proof (view_removeListener ev (User id) _ _ Hw1 eq_refl R) as V.
  rewrite view_on in V by assumption.
  pose proof (wf_flag w Hw) as Hf. pose proof (wf_count w Hw) as Hc.
  assert (L : forall ev', listeners (removeListener ev (User id) (on ev (User id) w)) ev'
                          = listeners w ev').
  { intros ev'. rewrite (listeners_removeListener ev ev' (User id) _ _ Hw1 eq_refl R).
    destruct (decide (ev = ev')) as [->|Hne]; [reflexivity|].
    rewrite listeners_on by assumption.
    destruct (decide (ev = ev')); [contradiction | reflexivity]. }
  remember (removeListener ev (User id) (on ev (User id) w)) as w2 eqn:E2. clear E2.
  unfold view in V at 1. unfold view_unsubscribe, view_subscribe in V. simpl in V.
  destruct (String.eqb ev "complete") eqn:Eev; simpl in V.
  - destruct (hasActiveListeners (op w)) eqn:Ef; simpl in V;
      injection V as -> -> -> -> _ _; simpl;
      (split; [lia|]); (split; [|auto]).
    + destruct (completeListeners (op w) + 1 - 1 =? 0) eqn:Ez; [|reflexivity].
      apply Z.eqb_eq in Ez. assert (0 < completeListeners (op w)) by (apply Hf; reflexivity).
      lia.
    + destruct (completeListeners (op w) + 1 - 1 =? 0) eqn:Ez; [reflexivity|].
      apply Z.eqb_neq in Ez.
      assert (0 < completeListeners (op w)) by lia.
      apply Hf in H. congruence.
  - unfold view in V. injection V as -> -> -> -> _ _. auto.
Qed.

End HandleProperties.

(** ** The formatters of the parent client *)

Lemma indexOf_str_ge (needle s : string) : -1 <= indexOf_str needle s.
Proof.
  induction s as [|a s IH]; cbn [indexOf_str].
  - destruct (String.prefix needle ""); lia.
  - destruct (String.prefix needle (String a s)); [lia|].
    destruct (indexOf_str needle s <? 0) eqn:E; [lia|]. apply Z.ltb_ge in E. lia.
Qed.

(** [s.indexOf(needle) === 0] says that [s] starts with [needle]. *)
Lemma indexOf_str_zero (needle s : string) :
  (indexOf_str needle s =? 0) = String.prefix needle s.
Proof.
  destruct s as [|a s]; cbn [indexOf_str].
  - destruct (String.prefix needle ""); reflexivity.
  - destruct (String.prefix needle (String a s)); [reflexivity|].
    pose proof (indexOf_str_ge needle s) as G.
    destruct (indexOf_str needle s <? 0) eqn:E; [reflexivity|].
    apply Z.ltb_ge in E. apply Z.eqb_neq. lia.
Qed.

Lemma prefix_app (p s t : string) :
  String.prefix p s = true -> String.prefix p (s +:+ t) = true.
Proof.
  revert s. induction p as [|a p IH]; intros s H.
  - destruct (s +:+ t); reflexivity.
  - destruct s as [|b s]; simpl in H; [discriminate|]. simpl.
    destruct (ascii_dec a b); [|discriminate]. apply IH. exact H.
Qed.

Lemma prefix_nonempty (a : ascii) (p s : string) :
  String.prefix (String a p) s = true -> s <> "".
Proof. destruct s; simpl; [discriminate | intros _; discriminate]. Qed.

Lemma length_snoc (s : string) (c : ascii) :
  String.length (s +:+ String c "") = S (String.length s).
Proof. induction s as [|a s IH]; simpl; [reflexivity | rewrite IH; reflexivity]. Qed.

Lemma lastIndexOf_snoc (c : ascii) (s : string) :
  lastIndexOf c (s +:+ String c "") = Z.of_nat (String.length s).
Proof.
  induction s as [|a s IH].
  - simpl. rewrite Ascii.eqb_refl. reflexivity.
  - change (String a s +:+ String c "") with (String a (s +:+ String c "")).
    cbn [lastIndexOf]. rewrite IH.
    destruct (0 <=? Z.of_nat (String.length s)) eqn:E.
    + cbn [String.length]. lia.
    + apply Z.leb_gt in E. lia.
Qed.

(** [s.lastIndexOf(c) === s.length - 1] on a non-empty [s] says that [s]
    ends with [c]. *)
Lemma lastIndexOf_last (c : ascii) (s : string) :
  s <> "" ->
  lastIndexOf c s = Z.of_nat (String.length s) - 1 ->
  exists s', s = s' +:+ String c "".
Proof.
  induction s as [|a s IH]; intros Hne H; [contradiction|].
  cbn [lastIndexOf String.length] in H.
  destruct (0 <=? lastIndexOf c s) eqn:E.
  - apply Z.leb_le in E.
    destruct s as [|b s]; [simpl in E; lia|].
    destruct IH as [s' Hs']; [discriminate | lia |].
    exists (String a s'). rewrite Hs'. reflexivity.
  - destruct (Ascii.eqb a c) eqn:Ea.
    + apply Ascii.eqb_eq in Ea. subst a.
      destruct s as [|b s]; [exists ""; reflexivity|].
      cbn [String.length] in H. lia.
    + lia.
Qed.

(** X7. Whatever the bucket name, [_formatGcsTrigger] returns a string that
    starts with 'gs://' and ends with '/'; formatting its result again
    changes nothing, and a name already of that form is returned as it is.
    The empty name gives 'gs://', with no second slash appended. *)
Theorem formatGcsTrigger_normal_form (bucketName : string) :
  String.prefix "gs://" (_formatGcsTrigger bucketName) = true
  /\ (exists r, _formatGcsTrigger bucketName = r +:+ "/")
  /\ _formatGcsTrigger (_formatGcsTrigger bucketName) = _formatGcsTrigger bucketName
  /\ (forall b, bucketName = "gs://" +:+ b +:+ "/" ->
                _formatGcsTrigger bucketName = bucketName)
  /\ _formatGcsTrigger "" = "gs://".
Proof.
  assert (Hfix : forall r, String.prefix "gs://" r = true ->
                           (exists r', r = r' +:+ "/") -> _formatGcsTrigger r = r).
  { intros r Hp [r' ->]. unfold _formatGcsTrigger.
    rewrite indexOf_str_zero, Hp. cbn [negb].
    rewrite lastIndexOf_snoc, length_snoc.
    replace (Z.of_nat (S (String.length r')) - 1) with (Z.of_nat (String.length r'))
      by lia.
    rewrite Z.eqb_refl. reflexivity. }
  assert (Hnf : String.prefix "gs://" (_formatGcsTrigger bucketName) = true
                /\ exists r, _formatGcsTrigger bucketName = r +:+ "/").
  { unfold _formatGcsTrigger. rewrite indexOf_str_zero.
    set (b1 := if negb (String.prefix "gs://" bucketName)
               then "gs://" +:+ bucketName else bucketName).
    assert (Hp : String.prefix "gs://" b1 = true).
    { subst b1. destruct (String.prefix "gs://" bucketName) eqn:E; cbn [negb];
        [exact E | apply (prefix_app "gs://" "gs://"); reflexivity]. }
    destruct (lastIndexOf "/" b1 =? Z.of_nat (String.length b1) - 1) eqn:E; cbn [negb].
    - split; [exact Hp|]. apply Z.eqb_eq in E.
      apply lastIndexOf_last; [|exact E]. eapply prefix_nonempty; eauto.
    - split; [apply prefix_app; exact Hp | eauto]. }
  destruct Hnf as [Hp He].
  split; [exact Hp|]. split; [exact He|]. split; [apply Hfix; assumption|].
  split; [|reflexivity].
  intros b ->. apply Hfix.
  - apply (prefix_app "gs://" "gs://"). reflexivity.
  - exists ("gs://" +:+ b). reflexivity.
Qed.

(** X8. [_formatPubsubTrigger] with a topic returns a string that starts
    with 'projects/'; a topic that already does is returned as it is, so the
    result is a fixed point for every project id, and a short topic is put
    under the given project.  Without a topic it throws a [TypeError]. *)
Theorem formatPubsubTrigger_normal_form (pid pid' topic : string) :
  exists r,
    _formatPubsubTrigger pid (Some topic) = inr r
    /\ String.prefix "projects/" r = true
    /\ _formatPubsubTrigger pid' (Some r) = inr r
    /\ (String.prefix "projects/" topic = true -> r = topic)
    /\ (String.prefix "projects/" topic = false ->
        r = "projects/" +:+ pid +:+ "/topics/" +:+ topic)
    /\ _formatPubsubTrigger pid None
       = inl (Error "TypeError: Cannot read property 'indexOf' of undefined").
Proof.
  unfold _formatPubsubTrigger. rewrite indexOf_str_zero.
  destruct (String.prefix "projects/" topic) eqn:E.
  - exists topic. rewrite indexOf_str_zero, E. repeat split; auto. discriminate.
  - exists ("projects/" +:+ pid +:+ "/topics/" +:+ topic).
    rewrite indexOf_str_zero.
    assert (Hp : String.prefix "projects/"
                   ("projects/" +:+ pid +:+ "/topics/" +:+ topic) = true)
      by (apply (prefix_app "projects/" "projects/"); reflexivity).
    rewrite Hp. repeat split; auto. discriminate.
Qed.

(** ** Configuration objects and [CloudFunction] *)

Lemma is_undefined_eq (v : Value) : is_undefined v = true -> v = VUndefined.
Proof. destruct v; simpl; congruence. Qed.

(** Reading a property of [extend(target, source)]. *)
Lemma prop_extend (target source : gmap string Value) (k : string) :
  prop (extend target source) k
  = if is_undefined (prop source k) then prop target k else prop source k.
Proof.
  unfold extend, prop. destruct (source !! k) as [v|] eqn:E; simpl.
  - destruct (is_undefined v) eqn:U.
    + rewrite lookup_union_r; [reflexivity|].
      apply map_lookup_filter_None_2. right. intros x Hx. simpl. congruence.
    + erewrite lookup_union_Some_l; [reflexivity|].
      apply map_lookup_filter_Some_2; simpl; auto.
  - rewrite lookup_union_r; [reflexivity|].
    apply map_lookup_filter_None_2. left. exact E.
Qed.

Lemma prop_extend_empty (source : gmap string Value) (k : string) :
  prop (extend ∅ source) k = prop source k.
Proof.
  rewrite prop_extend. destruct (is_undefined (prop source k)) eqn:U; [|reflexivity].
  apply is_undefined_eq in U. rewrite U. reflexivity.
Qed.

Lemma prop_insert (o : gmap string Value) (k k' : string) (v : Value) :
  prop (<[k := v]> o) k' = if decide (k = k') then v else prop o k'.
Proof.
  unfold prop. rewrite lookup_insert. destruct (decide (k = k')); reflexivity.
Qed.

(** The cases of the [CloudFunction] constructor. *)
Lemma new_CloudFunction_cases
    (functionPath : Value -> Value -> string -> string)
    (fns : Functions) (nm : Value) (config : option (gmap string Value)) :
  let pid := if is_undefined (prop (default ∅ config) "projectId")
             then projectId fns else prop (default ∅ config) "projectId" in
  let reg := if is_undefined (prop (default ∅ config) "region")
             then region fns else prop (default ∅ config) "region" in
  new_CloudFunction functionPath None nm config
  = inl (Error "A functions service object name must be provided.")
  /\ (is_string nm = false ->
      new_CloudFunction functionPath (Some fns) nm config
      = inl (Error "A function name must be provided."))
  /\ (is_string nm = true -> is_string pid = false ->
      new_CloudFunction functionPath (Some fns) nm config
      = inl (Error "A project string must be provided."))
  /\ (is_string nm = true -> is_string pid = true -> is_string reg = false ->
      new_CloudFunction functionPath (Some fns) nm config
      = inl (Error "A region string must be provided."))
  /\ (forall n, nm = VStr n -> is_string pid = true -> is_string reg = true ->
      exists cf,
        new_CloudFunction functionPath (Some fns) nm config = inr cf
        /\ cf_name cf = n
        /\ prop (cf_metadata cf) "projectId" = pid
        /\ prop (cf_metadata cf) "region" = reg
        /\ prop (cf_metadata cf) "name"
           = VStr (_formatName functionPath fns pid reg n)
        /\ forall k, k <> "name" -> k <> "projectId" -> k <> "region" ->
                     prop (cf_metadata cf) k = prop (default ∅ config) k).
Proof.
  intros pid reg.
  set (cfg := extend {[ "projectId" := projectId fns; "region" := region fns ]}
                (default ∅ config)).
  assert (Hp : prop cfg "projectId" = pid)
    by (subst cfg; rewrite prop_extend; reflexivity).
  assert (Hr : prop cfg "region" = reg)
    by (subst cfg; rewrite prop_extend; reflexivity).
  assert (Hk : forall k, k <> "projectId" -> k <> "region" ->
                         prop cfg k = prop (default ∅ config) k).
  { intros k H1 H2. subst cfg. rewrite prop_extend.
    destruct (is_undefined (prop (default ∅ config) k)) eqn:U; [|reflexivity].
    apply is_undefined_eq in U. rewrite U. unfold prop.
    rewrite lookup_insert_ne, lookup_singleton_ne by congruence. reflexivity. }
  split; [reflexivity|]. split; [|split; [|split]].
  - intros Hn. destruct nm; simpl in Hn; try discriminate; reflexivity.
  - intros Hn Hpid. destruct nm; try discriminate. cbn [new_CloudFunction].
    fold cfg. rewrite Hp, Hpid. reflexivity.
  - intros Hn Hpid Hreg. destruct nm; try discriminate. cbn [new_CloudFunction].
    fold cfg. rewrite Hp, Hr, Hpid, Hreg. reflexivity.
  - intros n -> Hpid Hreg. cbn [new_CloudFunction]. fold cfg.
    rewrite Hp, Hr, Hpid, Hreg. simpl. eexists. split; [reflexivity|]. simpl.
    rewrite !prop_insert, !prop_extend_empty, Hp, Hr. simpl.
    repeat split; auto.
    intros k H1 H2 H3. rewrite prop_insert.
    destruct (decide ("name" = k)); [congruence|].
    rewrite prop_extend_empty. apply Hk; assumption.
Qed.

(** X9. The [CloudFunction] constructor checks, in this order, the client,
    the name, the project and the region, where a project or region that the
    configuration leaves out or holds as [undefined] is the client's.  When
    all are strings the new object keeps the name as given, holds the
    resolved project and region and every other property of the
    configuration in its metadata, and [metadata.name] is the name formatted
    by [_formatName]. *)
Theorem new_CloudFunction_checks
    (functionPath : Value -> Value -> string -> string)
    (fns : Functions) (nm : Value) (config : option (gmap string Value)) :
  let pid := if is_undefined (prop (default ∅ config) "projectId")
             then projectId fns else prop (default ∅ config) "projectId" in
  let reg := if is_undefined (prop (default ∅ config) "region")
             then region fns else prop (default ∅ config) "region" in
  new_CloudFunction functionPath None nm config
  = inl (Error "A functions service object name must be provided.")
  /\ (is_string nm = false ->
      new_CloudFunction functionPath (Some fns) nm config
      = inl (Error "A function name must be provided."))
  /\ (is_string nm = true -> is_string pid = false ->
      new_CloudFunction functionPath (Some fns) nm config
      = inl (Error "A project string must be provided."))
  /\ (is_string nm = true -> is_string pid = true -> is_string reg = false ->
      new_CloudFunction functionPath (Some fns) nm config
      = inl (Error "A region string must be provided."))
  /\ (forall n, nm = VStr n -> is_string pid = true -> is_string reg = true ->
      exists cf,
        new_CloudFunction functionPath (Some fns) nm config = inr cf
        /\ cf_name cf = n
        /\ prop (cf_metadata cf) "projectId" = pid
        /\ prop (cf_metadata cf) "region" = reg
        /\ prop (cf_metadata cf) "name"
           = VStr (_formatName functionPath fns pid reg n)
        /\ forall k, k <> "name" -> k <> "projectId" -> k <> "region" ->
                     prop (cf_metadata cf) k = prop (default ∅ config) k).
Proof. exact (new_CloudFunction_cases functionPath fns nm config). Qed.

(** X10. What the system test of [cloudfunction] asserts: with a project
    and a region given as non-empty strings and a short name, the object's
    name is the short name and [metadata.name] is [functionPath] of the
    three.  On a client made from options that give a project and no region,
    [cloudfunction(name)] alone puts the function in 'us-central1'; on a
    client without any project it throws. *)
Theorem cloudfunction_sets_name
    (functionPath : Value -> Value -> string -> string)
    (this : Functions) (n p r : string) (config options : gmap string Value)
    (env_project : Value) :
  indexOf "/"%char n = -1 ->
  p <> "" -> r <> "" ->
  (prop config "projectId" = VStr p -> prop config "region" = VStr r ->
   exists cf,
     cloudfunction functionPath this (VStr n) (Some config) = inr cf
     /\ cf_name cf = n
     /\ prop (cf_metadata cf) "name" = VStr (functionPath (VStr p) (VStr r) n))
  /\ (prop options "projectId" = VStr p -> truthy (prop options "region") = false ->
      exists cf,
        cloudfunction functionPath (new_Functions options env_project) (VStr n) None
        = inr cf
        /\ cf_name cf = n
        /\ prop (cf_metadata cf) "name"
           = VStr (functionPath (VStr p) (VStr "us-central1") n))
  /\ (truthy (prop options "projectId") = false -> is_string env_project = false ->
      cloudfunction functionPath (new_Functions options env_project) (VStr n) None
      = inl (Error "A project string must be provided.")).
Proof.
  intros Hn Hp Hr.
  assert (Tp : truthy (VStr p) = true)
    by (simpl; apply negb_true_iff, String.eqb_neq; exact Hp).
  assert (Tr : truthy (VStr r) = true)
    by (simpl; apply negb_true_iff, String.eqb_neq; exact Hr).
  assert (Hfmt : forall fns a b, truthy a = true -> truthy b = true ->
                   _formatName functionPath fns a b n = functionPath a b n).
  { intros fns a b Ta Tb. unfold _formatName, js_or. rewrite Hn, Ta, Tb. reflexivity. }
  assert (E0 : forall k, prop (∅ : gmap string Value) k = VUndefined)
    by (intros k; unfold prop; rewrite lookup_empty; reflexivity).
  split; [|split].
  - intros Cp Cr.
    pose proof (new_CloudFunction_cases functionPath this (VStr n) (Some config)) as S.
    cbv zeta in S. change (default ∅ (Some config)) with config in S.
    rewrite Cp, Cr in S. cbn [is_undefined is_string] in S.
    destruct S as (_ & _ & _ & _ & S).
    destruct (S n eq_refl eq_refl eq_refl) as (cf & E & N & _ & _ & M & _).
    exists cf. unfold cloudfunction. rewrite E, N, M, Hfmt by assumption. auto.
  - intros Op Or.
    assert (Pf : projectId (new_Functions options env_project) = VStr p)
      by (unfold new_Functions, js_or; rewrite Op, Tp; reflexivity).
    assert (Rf : region (new_Functions options env_project) = VStr "us-central1")
      by (unfold new_Functions, js_or; rewrite Or; reflexivity).
    pose proof (new_CloudFunction_cases functionPath
                  (new_Functions options env_project) (VStr n) None) as S.
    cbv zeta in S.
    change (default ∅ (@None (gmap string Value))) with (∅ : gmap string Value) in S.
    rewrite !E0, Pf, Rf in S. cbn [is_undefined is_string] in S.
    destruct S as (_ & _ & _ & _ & S).
    destruct (S n eq_refl eq_refl eq_refl) as (cf & E & N & _ & _ & M & _).
    exists cf. unfold cloudfunction.
    rewrite E, N, M, Hfmt by (assumption || reflexivity). auto.
  - intros Op He.
    assert (Pf : projectId (new_Functions options env_project) = env_project)
      by (unfold new_Functions, js_or; rewrite Op; reflexivity).
    pose proof (new_CloudFunction_cases functionPath
                  (new_Functions options env_project) (VStr n) None) as S.
    cbv zeta in S.
    change (default ∅ (@None (gmap string Value))) with (∅ : gmap string Value) in S.
    rewrite !E0, Pf in S. cbn [is_undefined] in S.
    destruct S as (_ & _ & S & _).
    apply S; [reflexivity | exact He].
Qed.

(** ** [createFunction] *)

Lemma createFunction_body_prop
    (functionPath : Value -> Value -> string -> string)
    (this : Functions) (nm : string) (config : gmap string Value) (k : string) :
  k <> "name" -> k <> "projectId" -> k <> "region" ->
  prop (createFunction_body functionPath this nm config) k = prop config k.
Proof.
  intros H1 H2 H3. unfold createFunction_body. rewrite prop_extend.
  assert (E : forall v, prop ({[ "name" := v ]} : gmap string Value) k = VUndefined)
    by (intros v; unfold prop; rewrite lookup_singleton_ne by congruence; reflexivity).
  rewrite E. cbn [is_undefined]. rewrite prop_extend.
  destruct (is_undefined (prop config k)) eqn:U; [|reflexivity].
  apply is_undefined_eq in U. rewrite U. unfold prop.
  rewrite lookup_insert_ne, lookup_singleton_ne by congruence. reflexivity.
Qed.

(** X11. [createFunction] with a non-empty [pubsubTrigger] string, no
    [gcsTrigger] and no [localDir] never reaches the API: [makeRequest] calls
    [_formatPubsubTrigger] with the trigger alone, so the topic is missing
    and a [TypeError] is thrown. *)
Theorem createFunction_pubsubTrigger_throws
    (functionPath : Value -> Value -> string -> string)
    (this : Functions) (nm : string) (config : gmap string Value) (topic : string) :
  truthy (prop config "localDir") = false ->
  truthy (prop config "gcsTrigger") = false ->
  prop config "pubsubTrigger" = VStr topic ->
  topic <> "" ->
  createFunction_request functionPath this nm config
  = Some (Throws (Error "TypeError: Cannot read property 'indexOf' of undefined")).
Proof.
  intros Hl Hg Hp Ht.
  unfold createFunction_request.
  rewrite !createFunction_body_prop by discriminate. rewrite Hl.
  unfold makeRequest. cbn [truthy].
  set (body := createFunction_body functionPath this nm config).
  set (body1 := if truthy (prop config "gcsUrl")
                then <["gcsUrl" := prop config "gcsUrl"]> body else body).
  assert (B : forall k, k <> "gcsUrl" -> k <> "name" -> k <> "projectId" ->
                        k <> "region" -> prop body1 k = prop config k).
  { intros k H1 H2 H3 H4. subst body1.
    destruct (truthy (prop config "gcsUrl")).
    - rewrite prop_insert. destruct (decide ("gcsUrl" = k)); [congruence|].
      apply createFunction_body_prop; assumption.
    - apply createFunction_body_prop; assumption. }
  unfold format_triggers. rewrite !B by discriminate. rewrite Hg, Hp.
  assert (Tt : truthy (VStr topic) = true)
    by (simpl; apply negb_true_iff, String.eqb_neq; exact Ht).
  rewrite Tt. reflexivity.
Qed.

Lemma createFunction_body_name_eq
    (functionPath : Value -> Value -> string -> string)
    (this : Functions) (nm : string) (config : gmap string Value) :
  prop (createFunction_body functionPath this nm config) "name"
  = VStr (_formatName functionPath this
            (if is_undefined (prop config "projectId")
             then projectId this else prop config "projectId")
            (if is_undefined (prop config "region")
             then region this else prop config "region") nm).
Proof.
  unfold createFunction_body. rewrite prop_extend.
  assert (E : forall v, prop ({[ "name" := v ]} : gmap string Value) "name" = v)
    by (intros v; unfold prop; rewrite lookup_singleton_eq; reflexivity).
  rewrite E. cbn [is_undefined]. rewrite !prop_extend. reflexivity.
Qed.

Lemma format_triggers_keeps (nm : string) (body b : gmap string Value) (k : string) :
  format_triggers nm body = Some (inr b) ->
  k <> "gcsTrigger" -> k <> "pubsubTrigger" -> k <> "httpsTrigger" ->
  prop b k = prop body k.
Proof.
  unfold format_triggers, _formatPubsubTrigger. intros H H1 H2 H3.
  repeat case_match; simplify_eq; try reflexivity;
    rewrite prop_insert; destruct (decide _); congruence.
Qed.

(** X12. Whatever body [createFunction] sends to the API has no [projectId]
    and no [region]; its [name] is the name formatted by [_formatName] for
    the project and the region of the configuration, or the client's where
    the configuration leaves them out; a truthy [timeout] of the
    configuration goes out as [{seconds: timeout}]; and every property other
    than these and the three triggers goes out as the configuration holds
    it. *)
Theorem createFunction_sent_body
    (functionPath : Value -> Value -> string -> string)
    (this : Functions) (nm : string) (config b : gmap string Value) :
  let pid := if is_undefined (prop config "projectId")
             then projectId this else prop config "projectId" in
  let reg := if is_undefined (prop config "region")
             then region this else prop config "region" in
  createFunction_request functionPath this nm config = Some (Sends b) ->
  b !! "projectId" = None
  /\ b !! "region" = None
  /\ prop b "name" = VStr (_formatName functionPath this pid reg nm)
  /\ prop b "timeout"
     = (if truthy (prop config "timeout")
        then VObj {[ "seconds" := prop config "timeout" ]}
        else prop config "timeout")
  /\ forall k, k <> "name" -> k <> "projectId" -> k <> "region" -> k <> "timeout" ->
               k <> "gcsTrigger" -> k <> "pubsubTrigger" -> k <> "httpsTrigger" ->
               prop b k = prop config k.
Proof.
  intros pid reg. unfold createFunction_request. intros H.
  rewrite !createFunction_body_prop in H by discriminate.
  destruct (truthy (prop config "localDir")); [discriminate|].
  unfold makeRequest in H. cbn [truthy] in H.
  set (body := createFunction_body functionPath this nm config) in *.
  set (body1 := if truthy (prop config "gcsUrl")
                then <["gcsUrl" := prop config "gcsUrl"]> body else body) in *.
  assert (B : forall k, prop body1 k = prop body k).
  { intros k. subst body1. destruct (truthy (prop config "gcsUrl")); [|reflexivity].
    rewrite prop_insert. destruct (decide ("gcsUrl" = k)) as [<-|]; [|reflexivity].
    symmetry. apply createFunction_body_prop; discriminate. }
  destruct (format_triggers nm body1) as [[e|b2]|] eqn:F; try discriminate.
  assert (B2 : forall k, k <> "gcsTrigger" -> k <> "pubsubTrigger" ->
                         k <> "httpsTrigger" -> prop b2 k = prop body k).
  { intros k H1 H2 H3. rewrite (format_triggers_keeps nm body1 b2 k F H1 H2 H3).
    apply B. }
  rewrite (B2 "timeout") in H by discriminate.
  unfold body in H at 1 2. rewrite !createFunction_body_prop in H by discriminate.
  fold body in H.
  set (b3 := if truthy (prop config "timeout")
              then <["timeout" := VObj {[ "seconds" := prop config "timeout" ]}]> b2
              else b2) in *.
  assert (Hb : b = delete "region" (delete "projectId" b3)) by congruence.
  clear H.
  assert (D : forall k, k <> "projectId" -> k <> "region" -> prop b k = prop b3 k).
  { intros k H1 H2. subst b. unfold prop.
    rewrite !lookup_delete_ne by congruence. reflexivity. }
  assert (N : forall k, k <> "timeout" -> prop b3 k = prop b2 k).
  { intros k H1. subst b3. destruct (truthy (prop config "timeout")); [|reflexivity].
    rewrite prop_insert. destruct (decide ("timeout" = k)); [congruence|reflexivity]. }
  split; [subst b; rewrite lookup_delete_ne by discriminate; apply lookup_delete_eq|].
  split; [subst b; apply lookup_delete_eq|].
  split; [|split].
  - rewrite D, N, B2 by discriminate. apply createFunction_body_name_eq.
  - rewrite D by discriminate. subst b3. destruct (truthy (prop config "timeout")).
    + rewrite prop_insert. destruct (decide ("timeout" = "timeout")); [reflexivity|].
      contradiction.
    + rewrite (B2 "timeout") by discriminate.
      apply createFunction_body_prop; discriminate.
  - intros k K1 K2 K3 K4 K5 K6 K7.
    rewrite D, N, B2 by assumption. apply createFunction_body_prop; assumption.
Qed.

(** X13. With a non-empty [gcsTrigger] string and no [localDir],
    [createFunction] sends a body whose [gcsTrigger] is the trigger formatted
    by [_formatGcsTrigger]; [pubsubTrigger] and [httpsTrigger] go out as the
    configuration holds them. *)
Theorem createFunction_formats_gcsTrigger
    (functionPath : Value -> Value -> string -> string)
    (this : Functions) (nm : string) (config : gmap string Value) (bucket : string) :
  truthy (prop config "localDir") = false ->
  prop config "gcsTrigger" = VStr bucket ->
  bucket <> "" ->
  exists b,
    createFunction_request functionPath this nm config = Some (Sends b)
    /\ prop b "gcsTrigger" = VStr (_formatGcsTrigger bucket)
    /\ prop b "pubsubTrigger" = prop config "pubsubTrigger"
    /\ prop b "httpsTrigger" = prop config "httpsTrigger".
Proof.
  intros Hl Hg Hb.
  unfold createFunction_request.
  rewrite !createFunction_body_prop by discriminate. rewrite Hl.
  unfold makeRequest. cbn [truthy].
  set (body := createFunction_body functionPath this nm config).
  set (body1 := if truthy (prop config "gcsUrl")
                then <["gcsUrl" := prop config "gcsUrl"]> body else body).
  assert (B : forall k, k <> "gcsUrl" -> k <> "name" -> k <> "projectId" ->
                        k <> "region" -> prop body1 k = prop config k).
  { intros k H1 H2 H3 H4. subst body1.
    destruct (truthy (prop config "gcsUrl")).
    - rewrite prop_insert. destruct (decide ("gcsUrl" = k)); [congruence|].
      apply createFunction_body_prop; assumption.
    - apply createFunction_body_prop; assumption. }
  assert (Tb : truthy (VStr bucket) = true)
    by (simpl; apply negb_true_iff, String.eqb_neq; exact Hb).
  unfold format_triggers. rewrite !B by discriminate. rewrite Hg, Tb.
  eexists. split; [reflexivity|].
  set (b2 := <["gcsTrigger" := VStr (_formatGcsTrigger bucket)]> body1).
  assert (D : forall k, k <> "projectId" -> k <> "region" -> k <> "timeout" ->
              prop (delete "region" (delete "projectId"
                      (if truthy (prop b2 "timeout")
                       then <["timeout" := VObj {[ "seconds" := prop b2 "timeout" ]}]> b2
                       else b2))) k = prop b2 k).
  { intros k H1 H2 H3. unfold prop at 1. rewrite !lookup_delete_ne by congruence.
    destruct (truthy (prop b2 "timeout")); [|reflexivity].
    rewrite lookup_insert_ne by congruence. reflexivity. }
  rewrite !D by discriminate. subst b2. rewrite !prop_insert.
  destruct (decide ("gcsTrigger" = "gcsTrigger")); [|contradiction].
  destruct (decide ("gcsTrigger" = "pubsubTrigger")); [discriminate|].
  destruct (decide ("gcsTrigger" = "httpsTrigger")); [discriminate|].
  rewrite !B by discriminate. auto.
Qed.

(** ** [CloudFunction.prototype.call] *)

(** X14. [call(callback)] sends the empty string with empty options;
    [call(data, callback)] sends empty options.  Data that is neither a
    string nor truthy is refused, while every string, the empty one
    included, goes out as it is.  Whatever is sent is sent for
    [metadata.name], with options that are an object, and as a string as long
    as [JSON.stringify] returns strings. *)
Theorem call_normalises_arguments
    (stringify : Value -> Value) (cf : CloudFunction) (data options callback : Value) :
  (is_function data = true ->
   CloudFunction_call stringify cf data options callback
   = inr (mkCallFunctionRequest (prop (cf_metadata cf) "name") (VStr "") (VObj ∅) data))
  /\ (is_function data = false -> is_string data = false -> truthy data = false ->
      CloudFunction_call stringify cf data options callback
      = inl (Error "A data data value must be provided."))
  /\ (is_string data = true -> is_function options = true ->
      CloudFunction_call stringify cf data options callback
      = inr (mkCallFunctionRequest (prop (cf_metadata cf) "name") data (VObj ∅) options))
  /\ (is_string data = true -> is_object options = true ->
      CloudFunction_call stringify cf data options callback
      = inr (mkCallFunctionRequest (prop (cf_metadata cf) "name") data options callback))
  /\ (is_function data = false -> is_function options = false ->
      is_object options = false -> (is_string data = true \/ truthy data = true) ->
      CloudFunction_call stringify cf data options callback
      = inl (Error "A configuration object must be provided."))
  /\ (forall rq,
        CloudFunction_call stringify cf data options callback = inr rq ->
        cr_name rq = prop (cf_metadata cf) "name"
        /\ is_object (cr_options rq) = true
        /\ ((forall v, is_string (stringify v) = true) -> is_string (cr_data rq) = true)).
Proof.
  unfold CloudFunction_call.
  split; [|split; [|split; [|split; [|split]]]].
  - intros H. destruct data; try discriminate. reflexivity.
  - intros H1 H2 H3. destruct data; try discriminate;
      destruct options; simpl in *; try rewrite H3; reflexivity.
  - intros H1 H2. destruct data; try discriminate.
    destruct options; try discriminate. reflexivity.
  - intros H1 H2. destruct data; try discriminate.
    destruct options; try discriminate. reflexivity.
  - intros H1 H2 H3 H4.
    destruct data; try discriminate; destruct options; try discriminate;
      simpl in *; destruct H4 as [H4|H4]; try discriminate;
      try rewrite H4; reflexivity.
  - intros rq H.
    destruct data; destruct options; simpl in H;
      repeat case_match; simplify_eq; simpl; auto.
Qed.

(** ** The callback of [CloudFunction.prototype.delete] *)

(** X15. When the API reports an error the caller's callback gets it with
    no operation.  When it reports none, the callback gets a handle named
    after the response, with the response as its metadata, that has sent
    nothing and polls only once someone subscribes; but a response without a
    name makes [operation] throw inside the API callback, and the caller's
    callback is never called. *)
Theorem delete_callback_outcomes (err : Value) (response : gmap string Value) :
  (truthy err = true -> delete_callback err response = inr (Failed err response))
  /\ (truthy err = false -> truthy (prop response "name") = false ->
      delete_callback err response
      = inl (Error "A name must be specified for an operation."))
  /\ (truthy err = false -> truthy (prop response "name") = true ->
      exists w,
        delete_callback err response = inr (Started w response response)
        /\ name (op w) = prop response "name"
        /\ hasActiveListeners (op w) = false
        /\ fetches w = 0%nat
        /\ forall id, fetch_names (on "complete" (User id) w)
                       = [prop response "name"]).
Proof.
  unfold delete_callback, operation. split; [|split].
  - intros ->. reflexivity.
  - intros -> ->. reflexivity.
  - intros -> ->. simpl. eexists. split; [reflexivity|].
    split; [|split; [|split]]; rewrite new_Operation_eq; reflexivity.
Qed.

(** ** The further properties on sample inputs *)

Lemma every_fetch_names_the_handle_witness :
  let t := [Subscribe "complete" 0%nat; Respond VNull answer_pending; Tick] in
  let w := final_state sample_decorate t (new_Operation (VStr "op")) in
  run sample_decorate t (new_Operation (VStr "op")) = Some w
  /\ (name (op w) = VStr "op"
      /\ Forall (fun n => n = VStr "op") (fetch_names w)
      /\ length (fetch_names w) = fetches w).
Proof.
  intros t w.
  assert (H1 : run sample_decorate t (new_Operation (VStr "op")) = Some w)
    by (vm_compute; reflexivity).
  split; [assumption|].
  exact (every_fetch_names_the_handle sample_decorate (VStr "op") t w H1).
Defined.

Lemma terminal_answer_ends_the_loop_witness :
  let t := [Subscribe "complete" 0%nat; Subscribe "error" 1%nat] in
  let w := final_state sample_decorate t (new_Operation (VStr "op")) in
  let w' := final_state sample_decorate [Respond transport_error answer_pending] w in
  orderly sample_decorate t (new_Operation (VStr "op")) = true
  /\ run sample_decorate t (new_Operation (VStr "op")) = Some w
  /\ truthy transport_error || truthy (prop answer_pending "error")
     || truthy (prop answer_pending "done") = true
  /\ step sample_decorate (Respond transport_error answer_pending) w = Some w'
  /\ (inflight w' = 0%nat /\ timers w' = [] /\ fetches w' = fetches w
      /\ terminal w' = true
      /\ step sample_decorate Tick w' = None
      /\ forall err' resp', step sample_decorate (Respond err' resp') w' = None).
Proof.
  intros t w w'.
  assert (H1 : orderly sample_decorate t (new_Operation (VStr "op")) = true)
    by (vm_compute; reflexivity).
  assert (H2 : run sample_decorate t (new_Operation (VStr "op")) = Some w)
    by (vm_compute; reflexivity).
  assert (H3 : truthy transport_error || truthy (prop answer_pending "error")
               || truthy (prop answer_pending "done") = true) by reflexivity.
  assert (H4 : step sample_decorate (Respond transport_error answer_pending) w = Some w')
    by (vm_compute; reflexivity).
  repeat (split; [assumption|]).
  exact (terminal_answer_ends_the_loop sample_decorate (VStr "op") t w w'
           transport_error answer_pending H1 H2 H3 H4).
Defined.

Lemma unheard_error_is_thrown_witness :
  let t := [Subscribe "complete" 0%nat] in
  let w := final_state sample_decorate t (new_Operation (VStr "op")) in
  let w1 := final_state sample_decorate [Respond transport_error answer_pending] w in
  let w2 := final_state sample_decorate [Respond VNull answer_failed] w in
  run sample_decorate t (new_Operation (VStr "op")) = Some w
  /\ step sample_decorate (Respond transport_error answer_pending) w = Some w1
  /\ step sample_decorate (Respond VNull answer_failed) w = Some w2
  /\ listeners w "error" = []
  /\ exceptions sample_instanceof_Error w1
     = ThrowsArgument transport_error :: exceptions sample_instanceof_Error w
  /\ exceptions sample_instanceof_Error w2
     = ThrowsUnhandled (sample_decorate (prop answer_failed "result"))
       :: exceptions sample_instanceof_Error w.
Proof.
  intros t w w1 w2.
  assert (H1 : run sample_decorate t (new_Operation (VStr "op")) = Some w)
    by (vm_compute; reflexivity).
  assert (H2 : step sample_decorate (Respond transport_error answer_pending) w = Some w1)
    by (vm_compute; reflexivity).
  assert (H3 : step sample_decorate (Respond VNull answer_failed) w = Some w2)
    by (vm_compute; reflexivity).
  assert (H4 : listeners w "error" = []) by (vm_compute; reflexivity).
  repeat (split; [assumption|]).
  split.
  - exact (proj1 (unheard_error_is_thrown sample_decorate sample_instanceof_Error
                    (VStr "op") t (Respond transport_error answer_pending) w w1 H1 H2)
             transport_error answer_pending eq_refl eq_refl H4).
  - exact (proj1 (unheard_error_is_thrown sample_decorate sample_instanceof_Error
                    (VStr "op") t (Respond VNull answer_failed) w w2 H1 H3)
             VNull answer_failed eq_refl eq_refl H4).
Defined.

Lemma promise_keeps_errors_handled_witness :
  let t := [Respond transport_error answer_pending] in
  let w0 := new_Operation (VStr "op") in
  let w := final_state sample_decorate t (snd (promise w0)) in
  run sample_decorate [] (new_Operation (VStr "op")) = Some w0
  /\ run sample_decorate t (snd (promise w0)) = Some w
  /\ (uncaught w = uncaught w0
      /\ PromiseReject (fst (promise w0)) ∈ listeners w "error").
Proof.
  intros t w0 w.
  assert (H1 : run sample_decorate [] (new_Operation (VStr "op")) = Some w0)
    by reflexivity.
  assert (H2 : run sample_decorate t (snd (promise w0)) = Some w)
    by (vm_compute; reflexivity).
  repeat (split; [assumption|]).
  exact (promise_keeps_errors_handled sample_decorate (VStr "op") [] t w0 w H1 H2).
Defined.

Lemma fetches_bounded_by_subscriptions_and_answers_witness :
  let t := scenarioA (VStr "fn") in
  let w := final_state sample_decorate t (new_Operation (VStr "op")) in
  run sample_decorate t (new_Operation (VStr "op")) = Some w
  /\ (fetches w + length (timers w)
      <= count_actions is_complete_subscription t + count_actions reschedules t)%nat.
Proof.
  intros t w.
  assert (H1 : run sample_decorate t (new_Operation (VStr "op")) = Some w)
    by (vm_compute; reflexivity).
  split; [assumption|].
  exact (fetches_bounded_by_subscriptions_and_answers sample_decorate (VStr "op")
           t w H1).
Defined.

Lemma subscribe_then_unsubscribe_witness :
  let w := new_Operation (VStr "op") in
  let w2 := removeListener "complete" (User 0) (on "complete" (User 0) w) in
  run sample_decorate [] (new_Operation (VStr "op")) = Some w
  /\ (completeListeners (op w2) = completeListeners (op w)
      /\ hasActiveListeners (op w2) = hasActiveListeners (op w)
      /\ (forall ev', listeners w2 ev' = listeners w ev')
      /\ timers w2 = timers w
      /\ inflight w2
         = if String.eqb "complete" "complete" && negb (hasActiveListeners (op w))
           then S (inflight w) else inflight w).
Proof.
  intros w w2.
  assert (H1 : run sample_decorate [] (new_Operation (VStr "op")) = Some w)
    by reflexivity.
  split; [assumption|].
  exact (subscribe_then_unsubscribe sample_decorate (VStr "op") [] w "complete"
           0%nat H1).
Defined.

Lemma cloudfunction_sets_name_witness :
  indexOf "/"%char "helloWorld" = -1
  /\ "other-project" <> ""
  /\ "europe-west1" <> ""
  /\ prop config_place "projectId" = VStr "other-project"
  /\ prop config_place "region" = VStr "europe-west1"
  /\ exists cf,
       cloudfunction functionPath_template sample_client (VStr "helloWorld")
         (Some config_place) = inr cf
       /\ cf_name cf = "helloWorld"
       /\ prop (cf_metadata cf) "name"
          = VStr (functionPath_template (VStr "other-project") (VStr "europe-west1")
                    "helloWorld").
Proof.
  assert (H1 : indexOf "/"%char "helloWorld" = -1) by reflexivity.
  assert (H2 : "other-project" <> "") by discriminate.
  assert (H3 : "europe-west1" <> "") by discriminate.
  assert (H4 : prop config_place "projectId" = VStr "other-project")
    by (vm_compute; reflexivity).
  assert (H5 : prop config_place "region" = VStr "europe-west1")
    by (vm_compute; reflexivity).
  repeat (split; [assumption|]).
  exact (proj1 (cloudfunction_sets_name functionPath_template sample_client
                  "helloWorld" "other-project" "europe-west1" config_place ∅
                  VUndefined H1 H2 H3) H4 H5).
Defined.

Lemma createFunction_pubsubTrigger_throws_witness :
  truthy (prop config_pubsub "localDir") = false
  /\ truthy (prop config_pubsub "gcsTrigger") = false
  /\ prop config_pubsub "pubsubTrigger" = VStr "my-topic"
  /\ "my-topic" <> ""
  /\ createFunction_request functionPath_template sample_client "helloPubSub"
       config_pubsub
     = Some (Throws (Error "TypeError: Cannot read property 'indexOf' of undefined")).
Proof.
  assert (H1 : truthy (prop config_pubsub "localDir") = false)
    by (vm_compute; reflexivity).
  assert (H2 : truthy (prop config_pubsub "gcsTrigger") = false)
    by (vm_compute; reflexivity).
  assert (H3 : prop config_pubsub "pubsubTrigger" = VStr "my-topic")
    by (vm_compute; reflexivity).
  assert (H4 : "my-topic" <> "") by discriminate.
  repeat (split; [assumption|]).
  exact (createFunction_pubsubTrigger_throws functionPath_template sample_client
           "helloPubSub" config_pubsub "my-topic" H1 H2 H3 H4).
Defined.

Lemma createFunction_sent_body_witness :
  let b := sent_body (createFunction_request functionPath_template sample_client
                        "helloGCS" config_gcs) in
  createFunction_request functionPath_template sample_client "helloGCS" config_gcs
  = Some (Sends b)
  /\ b !! "projectId" = None
  /\ b !! "region" = None
  /\ prop b "name"
     = VStr "projects/my-project/locations/us-central1/functions/helloGCS"
  /\ prop b "timeout" = VObj {[ "seconds" := VNum 60 ]}
  /\ forall k, k <> "name" -> k <> "projectId" -> k <> "region" -> k <> "timeout" ->
               k <> "gcsTrigger" -> k <> "pubsubTrigger" -> k <> "httpsTrigger" ->
               prop b k = prop config_gcs k.
Proof.
  intros b.
  assert (H1 : createFunction_request functionPath_template sample_client "helloGCS"
                 config_gcs = Some (Sends b)) by (vm_compute; reflexivity).
  split; [assumption|].
  exact (createFunction_sent_body functionPath_template sample_client "helloGCS"
           config_gcs b H1).
Defined.

Lemma createFunction_formats_gcsTrigger_witness :
  truthy (prop config_gcs "localDir") = false
  /\ prop config_gcs "gcsTrigger" = VStr "my-bucket"
  /\ "my-bucket" <> ""
  /\ exists b,
       createFunction_request functionPath_template sample_client "helloGCS" config_gcs
       = Some (Sends b)
       /\ prop b "gcsTrigger" = VStr (_formatGcsTrigger "my-bucket")
       /\ prop b "pubsubTrigger" = prop config_gcs "pubsubTrigger"
       /\ prop b "httpsTrigger" = prop config_gcs "httpsTrigger".
Proof.
  assert (H1 : truthy (prop config_gcs "localDir") = false)
    by (vm_compute; reflexivity).
  assert (H2 : prop config_gcs "gcsTrigger" = VStr "my-bucket")
    by (vm_compute; reflexivity).
  assert (H3 : "my-bucket" <> "") by discriminate.
  repeat (split; [assumption|]).
  exact (createFunction_formats_gcsTrigger functionPath_template sample_client
           "helloGCS" config_gcs "my-bucket" H1 H2 H3).
Defined.

Example formatGcsTrigger_samples :
  _formatGcsTrigger "my-bucket" = "gs://my-bucket/"
  /\ _formatGcsTrigger "gs://my-bucket" = "gs://my-bucket/"
  /\ _formatGcsTrigger "my-bucket/" = "gs://my-bucket/".
Proof. repeat split; reflexivity. Qed.
